(** * The low memory killer: [lowmem_shrink]

    A shallow embedding of [drivers/staging/android/lowmemorykiller.c]
    (built with [SEC_ADJUST_LMK] defined, as the file does on line 42) and
    the properties of its shrinker callback.

    The file has one function of interest, [lowmem_shrink].  It reads the
    page counters, walks the threshold arrays [lowmem_minfree] and
    [lowmem_adj], walks the process list and possibly kills one task.  The
    embedding keeps the shape of the C function: C integers are [Z] with the
    conversions written out, the module's statics and the part of the kernel
    the function reads are one record, and every call into the rest of the
    kernel that has an effect is recorded as an [event]. *)

From stdpp Require Import base numbers list strings.

Local Open Scope Z_scope.

(** ** C integers *)

(** Conversion of an integer to a signed type of [bits] bits (the kernel is
    built with wrapping signed arithmetic). *)
Definition wrap_signed (bits z : Z) : Z :=
  (z + 2 ^ (bits - 1)) `mod` 2 ^ bits - 2 ^ (bits - 1).

Definition to_int (z : Z) : Z := wrap_signed 32 z.
Definition to_short (z : Z) : Z := wrap_signed 16 z.

Definition INT_MAX : Z := 2147483647.

(** [unsigned long] has 32 bits on the ARM target of this kernel. *)
Definition ULONG_MAX : Z := 4294967295.

(** The sum of two [unsigned long]s: their sum, less 2^32 when it does not
    fit. *)
Definition ulong_add (a b : Z) : Z :=
  if a + b <=? ULONG_MAX then a + b else a + b - (ULONG_MAX + 1).

(** ** The kernel as [lowmem_shrink] sees it *)

(** The counters read through [global_page_state]. *)
Inductive zone_stat_item :=
  | NR_FREE_PAGES
  | NR_INACTIVE_FILE
  | NR_ACTIVE_FILE
  | NR_ACTIVE_ANON
  | NR_INACTIVE_ANON.

(** The task [p] that [find_lock_task_mm] hands back: the fields the scan
    reads from it. *)
Record task_struct := mk_task {
  pid : Z;
  comm : string;
  (** [test_tsk_thread_flag(p, TIF_MEMDIE)] *)
  tif_memdie : bool;
  (** [p->signal->oom_score_adj] *)
  signal_oom_score_adj : Z;
  (** [get_mm_rss(p->mm)], an [unsigned long] *)
  mm_rss : Z;
}.

(** One element [tsk] of [for_each_process].  [find_lock_task_mm] lives in
    [mm/oom_kill.c]; an entry records what it answers for this process: the
    thread of the group that still owns an address space, or nothing
    ([NULL]). *)
Record process := mk_process {
  (** [tsk->flags] *)
  flags : Z;
  find_lock_task_mm : option task_struct;
}.

(** The statics of the module, and the kernel state the callback reads. *)
Record kernel := mk_kernel {
  lowmem_debug_level : Z;
  lowmem_adj : list Z;
  lowmem_adj_size : Z;
  lowmem_minfree : list Z;
  lowmem_minfree_size : Z;
  lowmem_deathpending_timeout : Z;
  jiffies : Z;
  global_page_state : zone_stat_item → Z;
  tasks : list process;
}.

(** [ARRAY_SIZE(lowmem_adj)]: both arrays are declared with six slots. *)
Definition ARRAY_SIZE_lowmem_adj : Z := 6.

(** A configuration as the module can hold it: both arrays have their six
    slots. *)
Definition wf_config (k : kernel) : Prop :=
  length (lowmem_adj k) = 6%nat ∧ length (lowmem_minfree k) = 6%nat.

(** [lowmem_adj[i]] and [lowmem_minfree[i]]. *)
Definition adj_at (k : kernel) (i : nat) : Z := default 0 (lowmem_adj k !! i).
Definition minfree_at (k : kernel) (i : nat) : Z :=
  default 0 (lowmem_minfree k !! i).

(** ** Effects *)

(** What the [printk] calls say; one constructor per format string. *)
Inductive message :=
  (** "lowmem_shrink %d, %x, ofree %d %d, ma %hd" *)
  | MsgShrink (nr_to_scan gfp_mask other_free other_file min_score_adj : Z)
  (** "lowmem_shrink %d, %x, return %d" *)
  | MsgReturn (nr_to_scan gfp_mask rem : Z)
  (** "select %d (%s), adj %hd, size %d, to kill" *)
  | MsgSelect (p_pid : Z) (p_comm : string) (adj size : Z)
  (** "send sigkill to %d (%s), adj %hd, size %d" *)
  | MsgSendSigkill (p_pid : Z) (p_comm : string) (adj size : Z).

Inductive signal := SIGKILL.

(** Calls into the rest of the kernel.  A task is named by the position of
    its process in the process list, which stands for the pointer. *)
Inductive event :=
  | Printk (m : message)
  | RcuReadLock
  | RcuReadUnlock
  | TaskLock (i : nat)
  | TaskUnlock (i : nat)
  | SendSig (sig : signal) (i : nat) (victim : Z)
  | SetTskThreadFlagMemdie (i : nat)
  | CompactNodes (sync : bool).

(** [lowmem_print(level, ...)]: prints when [lowmem_debug_level >= level]. *)
Definition lowmem_print (k : kernel) (level : Z) (m : message) : list event :=
  if level <=? lowmem_debug_level k then [Printk m] else [].

(** Modelled from the spec: [time_before_eq] is a macro of
    [include/linux/jiffies.h], which is not among the sources.  The
    specification gives the test as [now <= deadline]. *)
Definition time_before_eq (a b : Z) : bool := a <=? b.

(** [set_tsk_thread_flag(selected, TIF_MEMDIE)]. *)
Definition set_memdie (p : task_struct) : task_struct :=
  mk_task (pid p) (comm p) true (signal_oom_score_adj p) (mm_rss p).

Definition set_tsk_thread_flag_memdie (tsk : process) : process :=
  mk_process (flags tsk) (set_memdie <$> find_lock_task_mm tsk).

Definition with_kill (k : kernel) (timeout : Z) (i : nat) : kernel :=
  mk_kernel (lowmem_debug_level k) (lowmem_adj k) (lowmem_adj_size k)
    (lowmem_minfree k) (lowmem_minfree_size k) timeout (jiffies k)
    (global_page_state k) (alter set_tsk_thread_flag_memdie i (tasks k)).

(** The clock moves on; nothing else changes. *)
Definition at_jiffies (k : kernel) (now : Z) : kernel :=
  mk_kernel (lowmem_debug_level k) (lowmem_adj k) (lowmem_adj_size k)
    (lowmem_minfree k) (lowmem_minfree_size k)
    (lowmem_deathpending_timeout k) now (global_page_state k) (tasks k).

(** The same kernel with another process list. *)
Definition with_tasks (k : kernel) (ps : list process) : kernel :=
  mk_kernel (lowmem_debug_level k) (lowmem_adj k) (lowmem_adj_size k)
    (lowmem_minfree k) (lowmem_minfree_size k)
    (lowmem_deathpending_timeout k) (jiffies k) (global_page_state k) ps.

(** ** The threshold loop (lines 92 to 107) *)

(** [array_size] after the two [if]s. *)
Definition array_size (k : kernel) : Z :=
  let array_size := ARRAY_SIZE_lowmem_adj in
  let array_size :=
    if lowmem_adj_size k <? array_size then lowmem_adj_size k else array_size in
  if lowmem_minfree_size k <? array_size then lowmem_minfree_size k
  else array_size.

Definition other_free (k : kernel) : Z :=
  to_int (global_page_state k NR_FREE_PAGES).

Definition other_file (k : kernel) : Z :=
  to_int (global_page_state k NR_INACTIVE_FILE
          + global_page_state k NR_ACTIVE_FILE).

(** The [for] loop over the indices still to visit; [min_score_adj] is the
    value the variable keeps when no entry breaks out. *)
Fixpoint threshold_loop (k : kernel) (idx : list nat) (min_score_adj : Z) : Z :=
  match idx with
  | [] => min_score_adj
  | i :: idx' =>
      if to_int (other_free k + other_file k) <? minfree_at k i
      then adj_at k i
      else threshold_loop k idx' min_score_adj
  end.

(** ** The scan of the process list (lines 133 to 171) *)

(** [selected], [selected_tasksize] and [selected_oom_score_adj]. *)
Record selection := mk_selection {
  selected : option (nat * task_struct);
  selected_tasksize : Z;
  selected_oom_score_adj : Z;
}.

(** One turn of the loop body either goes on to the next process or leaves
    the function with a value. *)
Inductive step :=
  | Continue (st : selection) (evs : list event)
  | Return (ret : Z) (evs : list event).

Definition is_selected (st : selection) : bool :=
  match selected st with Some _ => true | None => false end.

(** The locals before the scan: [selected = NULL], [selected_tasksize = 0]
    and [selected_oom_score_adj = min_score_adj]. *)
Definition nothing_selected (min_score_adj : Z) : selection :=
  mk_selection None 0 min_score_adj.

Section Headers.

(** Constants of headers that are not among the sources:
    [OOM_SCORE_ADJ_MAX] and [OOM_ADJUST_MAX] of [include/linux/oom.h],
    [PF_KTHREAD] of [include/linux/sched.h] and [HZ]. *)
Variables (OOM_SCORE_ADJ_MAX OOM_ADJUST_MAX PF_KTHREAD HZ : Z).

(** [min_score_adj] after the threshold loop. *)
Definition lowmem_min_score_adj (k : kernel) : Z :=
  threshold_loop k (seq 0 (Z.to_nat (array_size k)))
    (to_short (OOM_SCORE_ADJ_MAX + 1)).

Definition is_kthread (tsk : process) : bool :=
  negb (Z.land (flags tsk) PF_KTHREAD =? 0).

Definition scan_body (k : kernel) (min_score_adj : Z) (i : nat)
    (tsk : process) (st : selection) : step :=
  if is_kthread tsk then Continue st []
  else
    match find_lock_task_mm tsk with
    | None => Continue st []
    | Some p =>
        if tif_memdie p
           && time_before_eq (jiffies k) (lowmem_deathpending_timeout k)
        then Return 0 [TaskLock i; TaskUnlock i; RcuReadUnlock]
        else
          let oom_score_adj := to_short (signal_oom_score_adj p) in
          if oom_score_adj <? min_score_adj
          then Continue st [TaskLock i; TaskUnlock i]
          else
            let tasksize := to_int (mm_rss p) in
            if tasksize <=? 0 then Continue st [TaskLock i; TaskUnlock i]
            else if is_selected st
                    && (oom_score_adj <? selected_oom_score_adj st)
            then Continue st [TaskLock i; TaskUnlock i]
            else if is_selected st
                    && (oom_score_adj <? selected_oom_score_adj st)
                    && (tasksize <=? selected_tasksize st)
            then Continue st [TaskLock i; TaskUnlock i]
            else
              Continue (mk_selection (Some (i, p)) tasksize oom_score_adj)
                ([TaskLock i; TaskUnlock i]
                 ++ lowmem_print k 2
                      (MsgSelect (pid p) (comm p) oom_score_adj tasksize))
    end.

(** [for_each_process(tsk) { ... }], from the process at position [i]. *)
Fixpoint for_each_process (k : kernel) (min_score_adj : Z) (i : nat)
    (ps : list process) (st : selection) : step :=
  match ps with
  | [] => Continue st []
  | tsk :: ps' =>
      match scan_body k min_score_adj i tsk st with
      | Return ret evs => Return ret evs
      | Continue st' evs =>
          match for_each_process k min_score_adj (S i) ps' st' with
          | Return ret evs' => Return ret (evs ++ evs')
          | Continue st'' evs' => Continue st'' (evs ++ evs')
          end
      end
  end.

(** The scan as [lowmem_shrink] starts it: nothing selected, and
    [selected_oom_score_adj = min_score_adj]. *)
Definition lowmem_scan (k : kernel) : step :=
  for_each_process k (lowmem_min_score_adj k) 0 (tasks k)
    (nothing_selected (lowmem_min_score_adj k)).

(** ** [lowmem_shrink] *)

Record result := mk_result {
  retval : Z;
  final : kernel;
  effects : list event;
}.

(** [rem] as computed on lines 116 to 119. *)
Definition lowmem_rem (k : kernel) : Z :=
  to_int (global_page_state k NR_ACTIVE_ANON
          + global_page_state k NR_ACTIVE_FILE
          + global_page_state k NR_INACTIVE_ANON
          + global_page_state k NR_INACTIVE_FILE).

Definition lowmem_shrink (k : kernel) (nr_to_scan gfp_mask : Z) : result :=
  let min_score_adj := lowmem_min_score_adj k in
  if min_score_adj =? to_int (OOM_ADJUST_MAX + 1) then mk_result 0 k []
  else
    let evs0 :=
      if 0 <? nr_to_scan
      then lowmem_print k 3
             (MsgShrink nr_to_scan gfp_mask (other_free k) (other_file k)
                min_score_adj)
      else [] in
    let rem := lowmem_rem k in
    if nr_to_scan <=? 0
    then mk_result rem k
           (evs0 ++ lowmem_print k 5 (MsgReturn nr_to_scan gfp_mask rem))
    else
      match lowmem_scan k with
      | Return ret evs => mk_result ret k (evs0 ++ RcuReadLock :: evs)
      | Continue st evs =>
          match selected st with
          | Some (i, p) =>
              let rem := to_int (rem - selected_tasksize st) in
              mk_result rem
                (with_kill k (ulong_add (jiffies k) HZ) i)
                (evs0 ++ RcuReadLock :: evs
                 ++ lowmem_print k 1
                      (MsgSendSigkill (pid p) (comm p)
                         (selected_oom_score_adj st) (selected_tasksize st))
                 ++ [SendSig SIGKILL i (pid p); SetTskThreadFlagMemdie i]
                 ++ lowmem_print k 4 (MsgReturn nr_to_scan gfp_mask rem)
                 ++ [RcuReadUnlock; CompactNodes false])
          | None =>
              let rem := -1 in
              mk_result rem k
                (evs0 ++ RcuReadLock :: evs
                 ++ lowmem_print k 4 (MsgReturn nr_to_scan gfp_mask rem)
                 ++ [RcuReadUnlock])
          end
      end.

End Headers.

(** ** The headers of the kernel *)

(** In every kernel that has [oom_score_adj], [include/linux/oom.h] gives
    [OOM_SCORE_ADJ_MAX] as 1000 and [OOM_ADJUST_MAX] as 15;
    [include/linux/sched.h] gives [PF_KTHREAD] as 0x00200000.  [HZ] is a
    build option; 100 is the usual value on ARM. *)
Module Linux.
Definition OOM_SCORE_ADJ_MAX : Z := 1000.
Definition OOM_ADJUST_MAX : Z := 15.
Definition PF_KTHREAD : Z := 2097152.
Definition HZ : Z := 100.

Definition lowmem_min_score_adj : kernel → Z :=
  lowmem_min_score_adj OOM_SCORE_ADJ_MAX.
Definition lowmem_scan : kernel → step :=
  lowmem_scan OOM_SCORE_ADJ_MAX PF_KTHREAD.
Definition lowmem_shrink : kernel → Z → Z → result :=
  lowmem_shrink OOM_SCORE_ADJ_MAX OOM_ADJUST_MAX PF_KTHREAD HZ.
End Linux.

(** ** Vocabulary of the properties *)

(** The score and the resident size as the scan reads them into its
    [short oom_score_adj] and [int tasksize]. *)
Definition task_score (p : task_struct) : Z := to_short (signal_oom_score_adj p).
Definition task_size (p : task_struct) : Z := to_int (mm_rss p).

(** Free pages plus file cache pages, as numbers. *)
Definition free_plus_cache (k : kernel) : Z :=
  global_page_state k NR_FREE_PAGES
  + (global_page_state k NR_INACTIVE_FILE + global_page_state k NR_ACTIVE_FILE).

(** The sum of the active and inactive, anonymous and file page counts. *)
Definition total_reclaimable (k : kernel) : Z :=
  global_page_state k NR_ACTIVE_ANON + global_page_state k NR_ACTIVE_FILE
  + global_page_state k NR_INACTIVE_ANON + global_page_state k NR_INACTIVE_FILE.

(** A page count that an [int] holds. *)
Definition fits_int (z : Z) : Prop := - INT_MAX - 1 ≤ z ≤ INT_MAX.

(** The number of threshold entries in force. *)
Definition effective_size (k : kernel) : Z :=
  Z.min ARRAY_SIZE_lowmem_adj (Z.min (lowmem_adj_size k) (lowmem_minfree_size k)).

(** A process that is marked as dying while the deadline has not passed. *)
Definition death_pending (k : kernel) (p : task_struct) : Prop :=
  tif_memdie p = true ∧ jiffies k ≤ lowmem_deathpending_timeout k.

(** A process that passes every filter of the scan, with the task [p] the
    scan would select for it. *)
Definition candidate (PF_KTHREAD min_score_adj : Z) (tsk : process)
    (p : task_struct) : Prop :=
  is_kthread PF_KTHREAD tsk = false
  ∧ find_lock_task_mm tsk = Some p
  ∧ min_score_adj ≤ task_score p
  ∧ 0 < task_size p.

(** What the scan has in hand after the processes [seen]: nothing if none of
    them is a candidate, and otherwise a candidate of the highest score, the
    last one of that score. *)
Definition best_of (PF_KTHREAD min_score_adj : Z) (seen : list process)
    (st : selection) : Prop :=
  match selected st with
  | None => ∀ j tsk q, seen !! j = Some tsk → ¬ candidate PF_KTHREAD min_score_adj tsk q
  | Some (i, p) =>
      (∃ tsk, seen !! i = Some tsk ∧ candidate PF_KTHREAD min_score_adj tsk p)
      ∧ selected_oom_score_adj st = task_score p
      ∧ selected_tasksize st = task_size p
      ∧ ∀ j tsk q,
          seen !! j = Some tsk → candidate PF_KTHREAD min_score_adj tsk q →
          task_score q ≤ task_score p
          ∧ (task_score q = task_score p → (j ≤ i)%nat)
  end.

(** The events a scan of the processes at positions [lo] to [hi - 1] can
    emit: it locks and unlocks those tasks, prints, and drops the RCU read
    lock when it leaves early. *)
Definition scan_event (lo hi : nat) (e : event) : Prop :=
  match e with
  | Printk _ | RcuReadUnlock => True
  | TaskLock j | TaskUnlock j => (lo ≤ j < hi)%nat
  | _ => False
  end.

Definition step_events (s : step) : list event :=
  match s with Continue _ evs | Return _ evs => evs end.

(** The test that makes the scan give up at task [p]. *)
Definition pending_b (k : kernel) (p : task_struct) : bool :=
  tif_memdie p && time_before_eq (jiffies k) (lowmem_deathpending_timeout k).

(** Two processes, possibly seen at two different moments [k] and [k'], that
    the scan cannot tell apart: both or neither are kernel threads, and if
    they are not, their tasks have the same pid and score, both or neither
    have pages, and both or neither make the scan give up. *)
Definition scan_alike (PF_KTHREAD : Z) (k k' : kernel) (tsk tsk' : process) : Prop :=
  is_kthread PF_KTHREAD tsk = is_kthread PF_KTHREAD tsk'
  ∧ (is_kthread PF_KTHREAD tsk = false →
     option_Forall2
       (λ p p', pid p = pid p'
                ∧ task_score p = task_score p'
                ∧ (0 < task_size p ↔ 0 < task_size p')
                ∧ pending_b k p = pending_b k' p')
       (find_lock_task_mm tsk) (find_lock_task_mm tsk')).

(** Two selections of the same position, pid and score. *)
Definition sel_alike (st st' : selection) : Prop :=
  option_Forall2 (λ a b : nat * task_struct, a.1 = b.1 ∧ pid a.2 = pid b.2)
    (selected st) (selected st')
  ∧ selected_oom_score_adj st = selected_oom_score_adj st'.

Definition step_alike (s s' : step) : Prop :=
  match s, s' with
  | Continue st _, Continue st' _ => sel_alike st st'
  | Return ret _, Return ret' _ => ret = ret'
  | _, _ => False
  end.

(** Two processes that differ at most in the resident size of their task,
    and not in whether it has pages at all. *)
Definition same_but_size (tsk tsk' : process) : Prop :=
  flags tsk = flags tsk'
  ∧ option_Forall2
      (λ p p', pid p = pid p'
               ∧ tif_memdie p = tif_memdie p'
               ∧ signal_oom_score_adj p = signal_oom_score_adj p'
               ∧ (0 < task_size p ↔ 0 < task_size p'))
      (find_lock_task_mm tsk) (find_lock_task_mm tsk').

(** The statement that, of the candidates with the highest score, the scan
    takes the first: every candidate before the selected task has a strictly
    lower score. *)
Definition first_of_highest_score_wins (PF_KTHREAD : Z) : Prop :=
  ∀ (k : kernel) (m : Z) (ps : list process) (st : selection)
    (evs : list event) (i : nat) (p : task_struct),
    for_each_process PF_KTHREAD k m 0 ps (nothing_selected m) = Continue st evs →
    selected st = Some (i, p) →
    ∀ (j : nat) (tsk : process) (q : task_struct),
      (j < i)%nat → ps !! j = Some tsk → candidate PF_KTHREAD m tsk q →
      task_score q < task_score p.

(** The events that only a kill brings about. *)
Definition kill_event (e : event) : Prop :=
  match e with
  | SendSig _ _ _ | SetTskThreadFlagMemdie _ | CompactNodes _ => True
  | _ => False
  end.

(** The value [OOM_ADJUST_MAX + 1] that line 109 compares [min_score_adj]
    with. *)
Definition short_circuit_value (OOM_ADJUST_MAX : Z) : Z :=
  to_int (OOM_ADJUST_MAX + 1).

(** The line that [lowmem_print(3, ...)] adds when [nr_to_scan > 0]. *)
Definition shrink_banner (OOM_SCORE_ADJ_MAX : Z) (k : kernel) (nr gfp : Z) :
    list event :=
  lowmem_print k 3
    (MsgShrink nr gfp (other_free k) (other_file k)
       (lowmem_min_score_adj OOM_SCORE_ADJ_MAX k)).

(** ** Concrete kernels *)

Definition page_counts (free inactive_file active_file active_anon
    inactive_anon : Z) (item : zone_stat_item) : Z :=
  match item with
  | NR_FREE_PAGES => free
  | NR_INACTIVE_FILE => inactive_file
  | NR_ACTIVE_FILE => active_file
  | NR_ACTIVE_ANON => active_anon
  | NR_INACTIVE_ANON => inactive_anon
  end.

(** The arrays as the file initialises them (the last two slots are zero),
    with their sizes of 4, and the debug level of 2. *)
Definition default_adj : list Z := [0; 1; 6; 12; 0; 0].
Definition default_minfree : list Z := [3072; 4096; 10240; 16384; 0; 0].

(** A kernel with the default table, [free] free pages, 2000 pages of file
    cache in all and 7000 pages on the four lists, at time [now] with the
    deadline [timeout]. *)
Definition kernel_with (adj : list Z) (free now timeout : Z)
    (ps : list process) : kernel :=
  mk_kernel 2 adj 4 default_minfree 4 timeout now
    (page_counts free 1000 1000 3000 2000) ps.

Definition user_process (id : Z) (name : string) (dying : bool)
    (score rss : Z) : process :=
  mk_process 0 (Some (mk_task id name dying score rss)).

Definition kthreadd : process := mk_process Linux.PF_KTHREAD None.

(** Two processes of score 8, of 100 and of 500 resident pages. *)
Definition small_app : process := user_process 101 "small" false 8 100.
Definition large_app : process := user_process 102 "large" false 8 500.
(** A process of score 0, and one that is dying, has a score below every
    entry of the table and has no pages left. *)
Definition system_app : process := user_process 100 "system" false 0 900.
Definition dying_app : process := user_process 103 "dying" true (-5) 0.

(** 3500 pages free or in the file cache: below the second entry of the
    default table only. *)
Definition under_pressure (ps : list process) : kernel :=
  kernel_with default_adj 1500 5 0 ps.
(** 22000 pages free or in the file cache: above every entry. *)
Definition relaxed (ps : list process) : kernel :=
  kernel_with default_adj 20000 5 0 ps.
(** The same pressure with a table whose second score is 16. *)
Definition with_score_16 (ps : list process) : kernel :=
  kernel_with [0; 16; 100; 200; 0; 0] 1500 5 0 ps.
(** 2500 pages free or in the file cache and a table whose first score is
    16: the first entry matches. *)
Definition first_score_16 (ps : list process) : kernel :=
  kernel_with [16; 100; 200; 300; 0; 0] 500 5 0 ps.
(** Under pressure at time 5, with a deadline of 7 still to come. *)
Definition cooling_down (ps : list process) : kernel :=
  kernel_with default_adj 1500 5 7 ps.

(** The table after "0,8" and "1024,4096" have been written to the
    parameters: two entries in force, the old values behind them. *)
Definition header_example (free : Z) : kernel :=
  mk_kernel 2 [0; 8; 6; 12; 0; 0] 2 [1024; 4096; 10240; 16384; 0; 0] 2 0 5
    (page_counts free 0 0 0 0) [].

(** The default table with other values in the two slots past its size. *)
Definition stale_slots : kernel :=
  mk_kernel 2 [0; 1; 6; 12; 99; 99] 4 [3072; 4096; 10240; 16384; 1; 1] 4 0 5
    (page_counts 1500 1000 1000 3000 2000) [].

(** ** Vocabulary of the further properties *)

(** The number the threshold loop compares with each entry of
    [lowmem_minfree]. *)
Definition pages_seen (k : kernel) : Z := to_int (other_free k + other_file k).

(** The same kernel with other page counters. *)
Definition with_page_state (k : kernel) (g : zone_stat_item → Z) : kernel :=
  mk_kernel (lowmem_debug_level k) (lowmem_adj k) (lowmem_adj_size k)
    (lowmem_minfree k) (lowmem_minfree_size k)
    (lowmem_deathpending_timeout k) (jiffies k) g (tasks k).

(** The locks a call holds: the RCU read lock, and the lock of at most one
    task. *)
Record lock_state := mk_locks {
  rcu_held : bool;
  task_held : option nat;
}.

Definition nothing_held : lock_state := mk_locks false None.

(** The discipline of the function: the RCU read lock is not taken twice; a
    task is locked inside the read section and while no other task is
    locked; a task is unlocked only if it is the one locked; the read lock
    is dropped, and a signal sent or a flag set, only while no task is
    locked; [compact_nodes] is called outside the read section.  [None]
    stands for a breach. *)
Definition lock_step (s : lock_state) (e : event) : option lock_state :=
  match e with
  | Printk _ => Some s
  | RcuReadLock =>
      if rcu_held s then None else Some (mk_locks true (task_held s))
  | RcuReadUnlock =>
      match rcu_held s, task_held s with
      | true, None => Some (mk_locks false None)
      | _, _ => None
      end
  | TaskLock i =>
      match rcu_held s, task_held s with
      | true, None => Some (mk_locks true (Some i))
      | _, _ => None
      end
  | TaskUnlock i =>
      match task_held s with
      | Some j => if decide (i = j) then Some (mk_locks (rcu_held s) None) else None
      | None => None
      end
  | SendSig _ _ _ | SetTskThreadFlagMemdie _ =>
      match rcu_held s, task_held s with
      | true, None => Some s
      | _, _ => None
      end
  | CompactNodes _ => if rcu_held s then None else Some s
  end.

Fixpoint lock_run (s : lock_state) (evs : list event) : option lock_state :=
  match evs with
  | [] => Some s
  | e :: evs' =>
      match lock_step s e with
      | Some s' => lock_run s' evs'
      | None => None
      end
  end.

(** The signals among the events, with the position and the pid of the
    task they go to. *)
Definition sent_signals (evs : list event) : list (nat * Z) :=
  omap (λ e, match e with SendSig _ i v => Some (i, v) | _ => None end) evs.

(** The calls into the kernel among the events, the [printk]s left out. *)
Definition calls_made (evs : list event) : list event :=
  omap (λ e, match e with Printk _ => None | _ => Some e end) evs.

(** The least debug level at which a message is printed. *)
Definition message_level (m : message) : Z :=
  match m with
  | MsgSendSigkill _ _ _ _ => 1
  | MsgSelect _ _ _ _ => 2
  | MsgShrink _ _ _ _ _ => 3
  | MsgReturn _ _ _ => 4
  end.

(** A process the scan passes over without locking a task: a kernel thread,
    or a process none of whose threads has an address space. *)
Definition passed_over (PF_KTHREAD : Z) (tsk : process) : Prop :=
  is_kthread PF_KTHREAD tsk = true ∨ find_lock_task_mm tsk = None.

(** Two selections of the same task, wherever it stands in the list. *)
Definition sel_same_task (st st' : selection) : Prop :=
  snd <$> selected st = snd <$> selected st'
  ∧ selected_tasksize st = selected_tasksize st'
  ∧ selected_oom_score_adj st = selected_oom_score_adj st'.

Definition step_same_task (s s' : step) : Prop :=
  match s, s' with
  | Continue st _, Continue st' _ => sel_same_task st st'
  | Return ret _, Return ret' _ => ret = ret'
  | _, _ => False
  end.

(** The deadline lies at most [HZ] ticks ahead of the clock. *)
Definition deadline_bounded (HZ : Z) (k : kernel) : Prop :=
  lowmem_deathpending_timeout k ≤ jiffies k + HZ.

(** The kernels that calls of [lowmem_shrink] lead to, in a world where
    between two calls the clock does not go back and nothing but the
    function writes [lowmem_deathpending_timeout]; the processes, the page
    counters and the parameters may change at will. *)
Inductive reaches (OOM_SCORE_ADJ_MAX OOM_ADJUST_MAX PF_KTHREAD HZ : Z) :
    kernel → kernel → Prop :=
  | reaches_here (k : kernel) :
      reaches OOM_SCORE_ADJ_MAX OOM_ADJUST_MAX PF_KTHREAD HZ k k
  | reaches_world (k k1 k' : kernel) :
      jiffies k ≤ jiffies k1 →
      lowmem_deathpending_timeout k1 = lowmem_deathpending_timeout k →
      reaches OOM_SCORE_ADJ_MAX OOM_ADJUST_MAX PF_KTHREAD HZ k1 k' →
      reaches OOM_SCORE_ADJ_MAX OOM_ADJUST_MAX PF_KTHREAD HZ k k'
  | reaches_call (k k' : kernel) (nr gfp : Z) :
      reaches OOM_SCORE_ADJ_MAX OOM_ADJUST_MAX PF_KTHREAD HZ
        (final (lowmem_shrink OOM_SCORE_ADJ_MAX OOM_ADJUST_MAX PF_KTHREAD HZ
                  k nr gfp)) k' →
      reaches OOM_SCORE_ADJ_MAX OOM_ADJUST_MAX PF_KTHREAD HZ k k'.

(** Finds an event in a list of events written with [::] and [++]. *)
Ltac find_event :=
  first [ apply list_elem_of_here
        | apply list_elem_of_further; find_event
        | apply elem_of_app; left; find_event
        | apply elem_of_app; right; find_event ].

(** ** Integer facts *)

Lemma wrap_signed_congr (bits z : Z) :
  0 < bits → ∃ q, wrap_signed bits z = z + q * 2 ^ bits.
Proof.
  intros Hb. unfold wrap_signed.
  assert (Hpos : 0 < 2 ^ bits) by (apply Z.pow_pos_nonneg; lia).
  exists (- ((z + 2 ^ (bits - 1)) `div` 2 ^ bits)).
  pose proof (Z.div_mod (z + 2 ^ (bits - 1)) (2 ^ bits)) as Hdm.
  lia.
Qed.

Lemma wrap_signed_shift (bits z q : Z) :
  0 < bits → wrap_signed bits (z + q * 2 ^ bits) = wrap_signed bits z.
Proof.
  intros Hb. unfold wrap_signed.
  assert (Hpos : 0 < 2 ^ bits) by (apply Z.pow_pos_nonneg; lia).
  replace (z + q * 2 ^ bits + 2 ^ (bits - 1))
    with (z + 2 ^ (bits - 1) + q * 2 ^ bits) by lia.
  rewrite Z.mod_add by lia. reflexivity.
Qed.

Lemma to_int_id (z : Z) : fits_int z → to_int z = z.
Proof.
  unfold fits_int, INT_MAX, to_int, wrap_signed. intros Hz.
  change (2 ^ (32 - 1)) with 2147483648. change (2 ^ 32) with 4294967296.
  rewrite Z.mod_small by lia. lia.
Qed.

Lemma to_int_add (a b : Z) : to_int (to_int a + to_int b) = to_int (a + b).
Proof.
  unfold to_int.
  destruct (wrap_signed_congr 32 a) as [qa ->]; [lia|].
  destruct (wrap_signed_congr 32 b) as [qb ->]; [lia|].
  replace (a + qa * 2 ^ 32 + (b + qb * 2 ^ 32))
    with (a + b + (qa + qb) * 2 ^ 32) by lia.
  apply wrap_signed_shift. lia.
Qed.

Lemma to_int_sub (a b : Z) : to_int (to_int a - to_int b) = to_int (a - b).
Proof.
  unfold to_int.
  destruct (wrap_signed_congr 32 a) as [qa ->]; [lia|].
  destruct (wrap_signed_congr 32 b) as [qb ->]; [lia|].
  replace (a + qa * 2 ^ 32 - (b + qb * 2 ^ 32))
    with (a - b + (qa - qb) * 2 ^ 32) by lia.
  apply wrap_signed_shift. lia.
Qed.

(** On two values that an [unsigned long] holds, [ulong_add] is the sum
    modulo 2^32; it is the plain sum when that fits, and never above it. *)
Lemma ulong_add_mod (a b : Z) :
  0 ≤ a ≤ ULONG_MAX → 0 ≤ b ≤ ULONG_MAX →
  ulong_add a b = (a + b) `mod` (ULONG_MAX + 1).
Proof.
  unfold ulong_add, ULONG_MAX. intros Ha Hb.
  destruct (Z.leb_spec (a + b) 4294967295) as [Hfit|Hcarry].
  - rewrite Z.mod_small by lia. reflexivity.
  - apply (Z.mod_unique_pos _ _ 1); lia.
Qed.

Lemma ulong_add_fits (a b : Z) : a + b ≤ ULONG_MAX → ulong_add a b = a + b.
Proof.
  intros Hfit. unfold ulong_add. rewrite (proj2 (Z.leb_le _ _) Hfit). reflexivity.
Qed.

Lemma ulong_add_le (a b : Z) : ulong_add a b ≤ a + b.
Proof. unfold ulong_add, ULONG_MAX. destruct (_ <=? _); lia. Qed.

(** The sum the threshold loop compares is the plain sum of the counters
    whenever that sum is an [int]. *)
Lemma other_sum_exact (k : kernel) :
  fits_int (free_plus_cache k) →
  to_int (other_free k + other_file k) = free_plus_cache k.
Proof.
  intros Hfit. unfold other_free, other_file. rewrite to_int_add.
  apply to_int_id, Hfit.
Qed.

Lemma array_size_min (k : kernel) : array_size k = effective_size k.
Proof.
  unfold array_size, effective_size, ARRAY_SIZE_lowmem_adj.
  repeat case_match; lia.
Qed.

(** ** The threshold loop *)

Lemma threshold_loop_break (k : kernel) (d : Z) (n a i : nat) :
  (a ≤ i < a + n)%nat →
  (∀ j, (a ≤ j < i)%nat → minfree_at k j ≤ to_int (other_free k + other_file k)) →
  to_int (other_free k + other_file k) < minfree_at k i →
  threshold_loop k (seq a n) d = adj_at k i.
Proof.
  revert a. induction n as [|n IH]; intros a Hi Hbefore Hhit; [lia|].
  cbn [seq threshold_loop].
  destruct (decide (a = i)) as [->|Hne].
  - rewrite (proj2 (Z.ltb_lt _ _) Hhit). reflexivity.
  - assert (Ha : minfree_at k a ≤ to_int (other_free k + other_file k))
      by (apply Hbefore; lia).
    rewrite (proj2 (Z.ltb_ge _ _) Ha).
    apply IH; [lia| |exact Hhit]. intros j Hj. apply Hbefore. lia.
Qed.

Lemma threshold_loop_fallthrough (k : kernel) (d : Z) (n a : nat) :
  (∀ j, (a ≤ j < a + n)%nat → minfree_at k j ≤ to_int (other_free k + other_file k)) →
  threshold_loop k (seq a n) d = d.
Proof.
  revert a. induction n as [|n IH]; intros a Hall; [reflexivity|].
  cbn [seq threshold_loop].
  rewrite (proj2 (Z.ltb_ge _ _) (Hall a ltac:(lia))).
  apply IH. intros j Hj. apply Hall. lia.
Qed.

(** The loop never reads past the six slots: the default of [adj_at] and
    [minfree_at] is never the value read. *)
Lemma threshold_reads_in_bounds (k : kernel) (i : nat) :
  wf_config k → Z.of_nat i < effective_size k →
  lowmem_minfree k !! i = Some (minfree_at k i)
  ∧ lowmem_adj k !! i = Some (adj_at k i).
Proof.
  intros [Hadj Hminfree] Hi. unfold effective_size, ARRAY_SIZE_lowmem_adj in Hi.
  assert (Hlt : (i < 6)%nat) by lia. unfold minfree_at, adj_at.
  destruct (lookup_lt_is_Some_2 (lowmem_minfree k) i) as [x ->]; [lia|].
  destruct (lookup_lt_is_Some_2 (lowmem_adj k) i) as [y ->]; [lia|].
  split; reflexivity.
Qed.

(** The loop reads the arrays, their sizes and the counters only. *)
Lemma threshold_loop_ext (k k' : kernel) (idx : list nat) (d : Z) :
  lowmem_adj k' = lowmem_adj k →
  lowmem_minfree k' = lowmem_minfree k →
  global_page_state k' = global_page_state k →
  threshold_loop k' idx d = threshold_loop k idx d.
Proof.
  intros Ha Hm Hg. induction idx as [|i idx IH]; [reflexivity|].
  cbn [threshold_loop]. unfold other_free, other_file, minfree_at, adj_at.
  rewrite Ha, Hm, Hg, IH. reflexivity.
Qed.

Section HeaderFacts.

Variables (OOM_SCORE_ADJ_MAX OOM_ADJUST_MAX PF_KTHREAD HZ : Z).

Local Abbreviation min_score_adj_of := (lowmem_min_score_adj OOM_SCORE_ADJ_MAX).
Local Abbreviation scan_body_of := (scan_body PF_KTHREAD).
Local Abbreviation for_each_process_of := (for_each_process PF_KTHREAD).
Local Abbreviation scan_of := (lowmem_scan OOM_SCORE_ADJ_MAX PF_KTHREAD).
Local Abbreviation shrink_of :=
  (lowmem_shrink OOM_SCORE_ADJ_MAX OOM_ADJUST_MAX PF_KTHREAD HZ).
Local Abbreviation candidate_of := (candidate PF_KTHREAD).
Local Abbreviation best_of_seen := (best_of PF_KTHREAD).
Local Abbreviation banner_of := (shrink_banner OOM_SCORE_ADJ_MAX).

(** C1.  The threshold check visits the entries of the table in force
    (its size is the least of the two configured counts and the six slots)
    from index 0 upward.  When the free and file cache pages together are
    an [int], it yields the score [lowmem_adj[i]] of the first entry whose
    [lowmem_minfree[i]] is strictly above their sum; when the sum is at or
    above every entry, no score is chosen: [min_score_adj] keeps the value
    [OOM_SCORE_ADJ_MAX + 1] it was declared with. *)
Theorem threshold_check_first_match (k : kernel) :
  fits_int (free_plus_cache k) →
  (∀ i : nat,
     Z.of_nat i < effective_size k →
     (∀ j : nat, (j < i)%nat → minfree_at k j ≤ free_plus_cache k) →
     free_plus_cache k < minfree_at k i →
     min_score_adj_of k = adj_at k i)
  ∧ ((∀ i : nat, Z.of_nat i < effective_size k →
                 minfree_at k i ≤ free_plus_cache k) →
     min_score_adj_of k = to_short (OOM_SCORE_ADJ_MAX + 1)).
Proof.
  intros Hfit. pose proof (other_sum_exact k Hfit) as Hsum.
  unfold lowmem_min_score_adj. rewrite array_size_min. split.
  - intros i Hi Hbefore Hhit.
    apply threshold_loop_break; rewrite ?Hsum; [lia| |exact Hhit].
    intros j Hj. apply Hbefore. lia.
  - intros Hall. apply threshold_loop_fallthrough. rewrite Hsum.
    intros j Hj. apply Hall. lia.
Qed.

(** ** The loop body *)

(** The body by cases.  The second test on [selected] (lines 162 to 164)
    repeats the condition of the first, which has already left the
    iteration, so it never fires. *)
Lemma scan_body_cases (k : kernel) (m : Z) (i : nat) (tsk : process)
    (st : selection) :
  scan_body_of k m i tsk st =
  if is_kthread PF_KTHREAD tsk then Continue st []
  else
    match find_lock_task_mm tsk with
    | None => Continue st []
    | Some p =>
        if tif_memdie p
           && time_before_eq (jiffies k) (lowmem_deathpending_timeout k)
        then Return 0 [TaskLock i; TaskUnlock i; RcuReadUnlock]
        else if (task_score p <? m)
                || (task_size p <=? 0)
                || (is_selected st && (task_score p <? selected_oom_score_adj st))
        then Continue st [TaskLock i; TaskUnlock i]
        else
          Continue (mk_selection (Some (i, p)) (task_size p) (task_score p))
            ([TaskLock i; TaskUnlock i]
             ++ lowmem_print k 2
                  (MsgSelect (pid p) (comm p) (task_score p) (task_size p)))
    end.
Proof.
  unfold scan_body, task_score, task_size.
  destruct (is_kthread PF_KTHREAD tsk); [reflexivity|].
  destruct (find_lock_task_mm tsk) as [p|]; [|reflexivity].
  destruct (tif_memdie p && _); [reflexivity|].
  destruct (to_short (signal_oom_score_adj p) <? m); [reflexivity|].
  destruct (to_int (mm_rss p) <=? 0); [reflexivity|].
  destruct (is_selected st); [|reflexivity].
  destruct (to_short (signal_oom_score_adj p) <? selected_oom_score_adj st);
    reflexivity.
Qed.

Lemma scan_body_abort (k : kernel) (m : Z) (i : nat) (tsk : process)
    (p : task_struct) (st : selection) :
  is_kthread PF_KTHREAD tsk = false →
  find_lock_task_mm tsk = Some p →
  death_pending k p →
  scan_body_of k m i tsk st = Return 0 [TaskLock i; TaskUnlock i; RcuReadUnlock].
Proof.
  intros Hk Hp [Hdie Htime]. rewrite scan_body_cases, Hk, Hp, Hdie.
  unfold time_before_eq. rewrite (proj2 (Z.leb_le _ _) Htime). reflexivity.
Qed.

Lemma scan_body_return (k : kernel) (m : Z) (i : nat) (tsk : process)
    (st : selection) (ret : Z) (evs : list event) :
  scan_body_of k m i tsk st = Return ret evs →
  ret = 0 ∧ evs = [TaskLock i; TaskUnlock i; RcuReadUnlock]
  ∧ is_kthread PF_KTHREAD tsk = false
  ∧ ∃ p, find_lock_task_mm tsk = Some p ∧ death_pending k p.
Proof.
  rewrite scan_body_cases.
  destruct (is_kthread PF_KTHREAD tsk); [discriminate|].
  destruct (find_lock_task_mm tsk) as [p|]; [|discriminate].
  destruct (tif_memdie p) eqn:Hdie; cbn [andb].
  - destruct (time_before_eq _ _) eqn:Htime.
    + intros [= <- <-]. repeat split. exists p. repeat split; [exact Hdie|].
      apply Z.leb_le, Htime.
    + destruct (_ || _); discriminate.
  - destruct (_ || _); discriminate.
Qed.

Lemma scan_body_events (k : kernel) (m : Z) (i : nat) (tsk : process)
    (st : selection) :
  Forall (scan_event i (S i)) (step_events (scan_body_of k m i tsk st)).
Proof.
  assert (Hlock : scan_event i (S i) (TaskLock i)) by (cbn; lia).
  assert (Hunlock : scan_event i (S i) (TaskUnlock i)) by (cbn; lia).
  rewrite scan_body_cases. unfold lowmem_print.
  repeat case_match; cbn [step_events app];
    repeat (apply Forall_cons; split; [first [assumption | exact I]|]);
    apply Forall_nil_2.
Qed.

(** ** The loop *)

Lemma for_each_process_app (k : kernel) (m : Z) (ps1 ps2 : list process) :
  ∀ (a : nat) (st : selection),
    for_each_process_of k m a (ps1 ++ ps2) st =
    match for_each_process_of k m a ps1 st with
    | Return ret evs => Return ret evs
    | Continue st1 evs1 =>
        match for_each_process_of k m (a + length ps1) ps2 st1 with
        | Return ret evs2 => Return ret (evs1 ++ evs2)
        | Continue st2 evs2 => Continue st2 (evs1 ++ evs2)
        end
    end.
Proof.
  induction ps1 as [|tsk ps1 IH]; intros a st; cbn [app for_each_process length].
  - rewrite Nat.add_0_r. destruct (for_each_process_of k m a ps2 st); reflexivity.
  - destruct (scan_body_of k m a tsk st) as [st' evs|ret evs]; [|reflexivity].
    rewrite IH. replace (a + S (length ps1))%nat with (S a + length ps1)%nat by lia.
    destruct (for_each_process_of k m (S a) ps1 st') as [st1 evs1|ret evs1];
      [|reflexivity].
    destruct (for_each_process_of k m (S a + length ps1) ps2 st1);
      rewrite app_assoc; reflexivity.
Qed.

Lemma scan_event_widen (lo hi lo' hi' : nat) (e : event) :
  (lo' ≤ lo)%nat → (hi ≤ hi')%nat → scan_event lo hi e → scan_event lo' hi' e.
Proof. intros Hlo Hhi. destruct e; cbn; lia || tauto. Qed.

Lemma for_each_process_events (k : kernel) (m : Z) (ps : list process) :
  ∀ (a : nat) (st : selection),
    Forall (scan_event a (a + length ps))
      (step_events (for_each_process_of k m a ps st)).
Proof.
  induction ps as [|tsk ps IH]; intros a st; cbn [for_each_process length].
  - apply Forall_nil_2.
  - pose proof (scan_body_events k m a tsk st) as Hbody.
    destruct (scan_body_of k m a tsk st) as [st' evs|ret evs];
      cbn [step_events] in Hbody.
    + pose proof (IH (S a) st') as Hrest.
      destruct (for_each_process_of k m (S a) ps st') as [st1 evs1|ret evs1];
        cbn [step_events] in *; apply Forall_app; split;
        eapply Forall_impl; eauto; intros e; apply scan_event_widen; lia.
    + cbn [step_events]. eapply Forall_impl; eauto.
      intros e; apply scan_event_widen; lia.
Qed.

(** The loop leaves the function only with 0, and only at a task that is
    marked as dying before the deadline. *)
Lemma for_each_process_return (k : kernel) (m : Z) (ps : list process) :
  ∀ (a : nat) (st : selection) (ret : Z) (evs : list event),
    for_each_process_of k m a ps st = Return ret evs →
    ret = 0
    ∧ ∃ tsk p, tsk ∈ ps ∧ is_kthread PF_KTHREAD tsk = false
               ∧ find_lock_task_mm tsk = Some p ∧ death_pending k p.
Proof.
  induction ps as [|tsk ps IH]; intros a st ret evs; cbn [for_each_process];
    [discriminate|].
  destruct (scan_body_of k m a tsk st) as [st' evs0|ret0 evs0] eqn:Hbody.
  - destruct (for_each_process_of k m (S a) ps st') as [st1 evs1|ret1 evs1] eqn:Hrest;
      [discriminate|].
    intros [= <- <-]. destruct (IH _ _ _ _ Hrest) as (-> & tsk' & p & Hin & Hp).
    split; [reflexivity|]. exists tsk', p. split; [|exact Hp].
    apply elem_of_cons. right. exact Hin.
  - intros [= <- <-].
    destruct (scan_body_return _ _ _ _ _ _ _ Hbody) as (-> & _ & Hk & p & Hp & Hd).
    split; [reflexivity|]. exists tsk, p. split; [apply elem_of_cons; left; reflexivity|].
    auto.
Qed.

(** A task that is marked as dying before the deadline stops the loop, and
    what follows it in the list is never looked at. *)
Lemma for_each_process_abort (k : kernel) (m : Z)
    (pre : list process) (tsk : process) (p : task_struct) :
  is_kthread PF_KTHREAD tsk = false →
  find_lock_task_mm tsk = Some p →
  death_pending k p →
  ∀ (a : nat) (st : selection),
    ∃ evs,
      (∀ post, for_each_process_of k m a (pre ++ tsk :: post) st = Return 0 evs)
      ∧ Forall (scan_event a (a + S (length pre))) evs.
Proof.
  intros Hk Hp Hd a st.
  pose proof (for_each_process_events k m pre a st) as Hpre_evs.
  destruct (for_each_process_of k m a pre st) as [st1 evs1|ret evs1] eqn:Hpre;
    cbn [step_events] in Hpre_evs.
  - exists (evs1 ++ [TaskLock (a + length pre); TaskUnlock (a + length pre);
                     RcuReadUnlock]).
    split.
    + intros post. rewrite for_each_process_app, Hpre. cbn [for_each_process].
      rewrite (scan_body_abort _ _ _ _ _ _ Hk Hp Hd). reflexivity.
    + apply Forall_app. split.
      * eapply Forall_impl; [exact Hpre_evs|].
        intros e. apply scan_event_widen; lia.
      * repeat (apply Forall_cons; split; [cbn; lia || exact I|]).
        apply Forall_nil_2.
  - destruct (for_each_process_return _ _ _ _ _ _ _ Hpre) as [-> _].
    exists evs1. split.
    + intros post. rewrite for_each_process_app, Hpre. reflexivity.
    + eapply Forall_impl; [exact Hpre_evs|].
      intros e. apply scan_event_widen; lia.
Qed.

(** Without a task that is marked as dying before the deadline, the loop
    runs to the end of the list. *)
Lemma for_each_process_completes (k : kernel) (m : Z) (ps : list process)
    (a : nat) (st : selection) :
  (∀ tsk p, tsk ∈ ps → is_kthread PF_KTHREAD tsk = false →
            find_lock_task_mm tsk = Some p → ¬ death_pending k p) →
  ∃ st' evs, for_each_process_of k m a ps st = Continue st' evs.
Proof.
  intros Hnone.
  destruct (for_each_process_of k m a ps st) as [st' evs|ret evs] eqn:Hscan;
    [eauto|].
  destruct (for_each_process_return _ _ _ _ _ _ _ Hscan)
    as (_ & tsk & p & Hin & Hk & Hp & Hd).
  destruct (Hnone tsk p Hin Hk Hp Hd).
Qed.

(** ** What the loop has selected *)

Lemma best_of_nil (m d : Z) : best_of_seen m [] (nothing_selected d).
Proof. intros j tsk q Hj. rewrite lookup_nil in Hj. discriminate. Qed.

(** A process that is not a candidate changes nothing. *)
Lemma best_of_skip (m : Z) (seen : list process) (tsk : process)
    (st : selection) :
  (∀ q, ¬ candidate_of m tsk q) →
  best_of_seen m seen st → best_of_seen m (seen ++ [tsk]) st.
Proof.
  intros Hnot. unfold best_of.
  assert (Hold : ∀ j tsk', (seen ++ [tsk]) !! j = Some tsk' →
                           tsk' = tsk ∨ seen !! j = Some tsk').
  { intros j tsk' Hj. apply lookup_app_Some in Hj as [Hj|[_ Hj]]; [auto|].
    apply list_lookup_singleton_Some in Hj as [_ ->]. auto. }
  destruct (selected st) as [[i p]|].
  - intros ((tski & Hi & Hc) & Hadj & Hsize & Hbest).
    split; [exists tski; split; [apply lookup_app_l_Some, Hi|exact Hc]|].
    split; [exact Hadj|]. split; [exact Hsize|].
    intros j tsk' q Hj Hq. destruct (Hold _ _ Hj) as [->|Hj'].
    + destruct (Hnot _ Hq).
    + apply (Hbest _ _ _ Hj' Hq).
  - intros Hnone j tsk' q Hj Hc. destruct (Hold _ _ Hj) as [->|Hj'].
    + apply (Hnot _ Hc).
    + apply (Hnone _ _ _ Hj' Hc).
Qed.

(** One turn of the body keeps the invariant. *)
Lemma scan_body_best_of (k : kernel) (m : Z) (seen : list process)
    (tsk : process) (st st' : selection) (evs : list event) :
  best_of_seen m seen st →
  scan_body_of k m (length seen) tsk st = Continue st' evs →
  best_of_seen m (seen ++ [tsk]) st'.
Proof.
  intros Hinv. rewrite scan_body_cases.
  destruct (is_kthread PF_KTHREAD tsk) eqn:Hk.
  { intros [= <- <-]. apply best_of_skip; [|exact Hinv].
    intros q (Hk' & _). congruence. }
  destruct (find_lock_task_mm tsk) as [p|] eqn:Hp.
  2:{ intros [= <- <-]. apply best_of_skip; [|exact Hinv].
      intros q (_ & Hq & _). congruence. }
  destruct (tif_memdie p && _); [discriminate|].
  destruct (task_score p <? m) eqn:Hlow; cbn [orb].
  { intros [= <- <-]. apply best_of_skip; [|exact Hinv].
    intros q (_ & Hq & Hs & _). apply Z.ltb_lt in Hlow.
    assert (q = p) by congruence. subst q. lia. }
  destruct (task_size p <=? 0) eqn:Hsize; cbn [orb].
  { intros [= <- <-]. apply best_of_skip; [|exact Hinv].
    intros q (_ & Hq & _ & Hs). apply Z.leb_le in Hsize.
    assert (q = p) by congruence. subst q. lia. }
  apply Z.ltb_ge in Hlow. apply Z.leb_gt in Hsize.
  assert (Hcand : candidate_of m tsk p) by (repeat split; assumption).
  assert (Hnew : ∀ j tsk', (seen ++ [tsk]) !! j = Some tsk' →
                   (j = length seen ∧ tsk' = tsk)
                   ∨ ((j < length seen)%nat ∧ seen !! j = Some tsk')).
  { intros j tsk' Hj. apply lookup_app_Some in Hj as [Hj|[Hge Hj]].
    - right. split; [|exact Hj]. apply lookup_lt_Some in Hj. exact Hj.
    - apply list_lookup_singleton_Some in Hj as [Hz ->]. left. split; [lia|done]. }
  unfold is_selected, best_of in *.
  destruct (selected st) as [[i0 p0]|] eqn:Hsel.
  - destruct Hinv as ((tsk0 & Hi0 & Hc0) & Hadj & Hsz & Hbest).
    destruct (task_score p <? selected_oom_score_adj st) eqn:Hcmp; cbn [andb].
    + (* a lower score than the one in hand: the task in hand stays *)
      intros [= <- <-]. rewrite Hsel. apply Z.ltb_lt in Hcmp.
      split; [exists tsk0; split; [apply lookup_app_l_Some, Hi0|exact Hc0]|].
      split; [exact Hadj|]. split; [exact Hsz|].
      intros j tsk' q Hj Hq. destruct (Hnew _ _ Hj) as [[-> ->]|[_ Hj']].
      * destruct Hq as (_ & Hq & _). assert (q = p) by congruence. subst q.
        split; lia.
      * apply (Hbest _ _ _ Hj' Hq).
    + (* at least the score in hand: this task replaces it *)
      intros [= <- <-]. cbn [selected selected_oom_score_adj selected_tasksize].
      apply Z.ltb_ge in Hcmp.
      split; [exists tsk; split; [apply list_lookup_middle; reflexivity|exact Hcand]|].
      split; [reflexivity|]. split; [reflexivity|].
      intros j tsk' q Hj Hq. destruct (Hnew _ _ Hj) as [[-> ->]|[Hlt Hj']].
      * destruct Hq as (_ & Hq & _). assert (q = p) by congruence. subst q.
        split; lia.
      * destruct (Hbest _ _ _ Hj' Hq) as [Hle _]. split; lia.
  - cbn [andb]. intros [= <- <-].
    cbn [selected selected_oom_score_adj selected_tasksize].
    split; [exists tsk; split; [apply list_lookup_middle; reflexivity|exact Hcand]|].
    split; [reflexivity|]. split; [reflexivity|].
    intros j tsk' q Hj Hq. destruct (Hnew _ _ Hj) as [[-> ->]|[Hlt Hj']].
    + destruct Hq as (_ & Hq & _). assert (q = p) by congruence. subst q.
      split; lia.
    + destruct (Hinv _ _ _ Hj' Hq).
Qed.

Lemma for_each_process_best_of (k : kernel) (m : Z) (ps : list process) :
  ∀ (seen : list process) (st st' : selection) (evs : list event),
    best_of_seen m seen st →
    for_each_process_of k m (length seen) ps st = Continue st' evs →
    best_of_seen m (seen ++ ps) st'.
Proof.
  induction ps as [|tsk ps IH]; intros seen st st' evs Hinv;
    cbn [for_each_process].
  - intros [= <- <-]. rewrite app_nil_r. exact Hinv.
  - destruct (scan_body_of k m (length seen) tsk st) as [st1 evs1|] eqn:Hbody;
      [|discriminate].
    pose proof (scan_body_best_of _ _ _ _ _ _ _ Hinv Hbody) as Hinv1.
    destruct (for_each_process_of k m (S (length seen)) ps st1)
      as [st2 evs2|] eqn:Hrest; [|discriminate].
    intros [= <- <-]. rewrite (cons_middle tsk seen ps), app_assoc.
    apply (IH (seen ++ [tsk]) st1 st2 evs2 Hinv1).
    rewrite length_app. cbn [length].
    replace (length seen + 1)%nat with (S (length seen)) by lia. exact Hrest.
Qed.

(** The scan of the whole list, started as [lowmem_shrink] starts it. *)
Lemma lowmem_scan_best_of (k : kernel) (st : selection) (evs : list event) :
  scan_of k = Continue st evs →
  best_of_seen (min_score_adj_of k) (tasks k) st.
Proof.
  intros Hscan.
  apply (for_each_process_best_of k (min_score_adj_of k) (tasks k) []
           (nothing_selected (min_score_adj_of k)) st evs).
  - apply best_of_nil.
  - exact Hscan.
Qed.

(** ** Processes the scan cannot tell apart *)

Lemma scan_body_alike (k k' : kernel) (m : Z) (i : nat) (tsk tsk' : process)
    (st st' : selection) :
  scan_alike PF_KTHREAD k k' tsk tsk' → sel_alike st st' →
  step_alike (scan_body_of k m i tsk st) (scan_body_of k' m i tsk' st').
Proof.
  intros [Hk Hp] [Hsel Hadj]. rewrite !scan_body_cases, <- Hk.
  destruct (is_kthread PF_KTHREAD tsk); [split; assumption|].
  specialize (Hp eq_refl).
  destruct Hp as [p p' (Hpid & Hscore & Hsize & Hpend)|]; [|split; assumption].
  unfold pending_b in Hpend. rewrite <- Hpend.
  destruct (tif_memdie p && _); [reflexivity|].
  assert (His : is_selected st = is_selected st').
  { unfold is_selected. destruct Hsel; reflexivity. }
  assert (Hsz : (task_size p <=? 0) = (task_size p' <=? 0)).
  { destruct (Z.leb_spec (task_size p) 0), (Z.leb_spec (task_size p') 0);
      [reflexivity|lia|lia|reflexivity]. }
  rewrite <- Hscore, <- Hsz, <- His, <- Hadj.
  destruct (_ || _); cbn [step_alike]; [split; assumption|].
  split; cbn [selected selected_oom_score_adj]; [|reflexivity].
  constructor. split; [reflexivity|exact Hpid].
Qed.

Lemma for_each_process_alike (k k' : kernel) (m : Z) (ps ps' : list process) :
  Forall2 (scan_alike PF_KTHREAD k k') ps ps' →
  ∀ (a : nat) (st st' : selection),
    sel_alike st st' →
    step_alike (for_each_process_of k m a ps st)
               (for_each_process_of k' m a ps' st').
Proof.
  induction 1 as [|tsk tsk' ps ps' Htsk _ IH]; intros a st st' Hst;
    cbn [for_each_process]; [exact Hst|].
  pose proof (scan_body_alike k k' m a tsk tsk' st st' Htsk Hst) as Hbody.
  destruct (scan_body_of k m a tsk st) as [st1 evs1|ret1 evs1],
           (scan_body_of k' m a tsk' st') as [st1' evs1'|ret1' evs1'];
    cbn [step_alike] in Hbody; try contradiction; [|exact Hbody].
  specialize (IH (S a) st1 st1' Hbody).
  destruct (for_each_process_of k m (S a) ps st1),
           (for_each_process_of k' m (S a) ps' st1'); exact IH.
Qed.

Lemma same_but_size_alike (k : kernel) (tsk tsk' : process) :
  same_but_size tsk tsk' → scan_alike PF_KTHREAD k k tsk tsk'.
Proof.
  intros [Hflags Hp]. split; [unfold is_kthread; rewrite Hflags; reflexivity|].
  intros _. destruct Hp as [p p' (Hpid & Hdie & Hadj & Hsize)|]; constructor.
  unfold task_score, pending_b. rewrite Hadj, Hdie. auto.
Qed.

(** ** The selected task *)

(** C8.  Whatever the process list and the least score, a task the scan
    comes back with belongs to a process that is not flagged as a kernel
    thread, has a score of at least the least score and a resident size
    above zero.  A process flagged as a kernel thread is passed over before
    any other of its fields is read. *)
Theorem victim_passes_every_filter (k : kernel) (m : Z) (ps : list process)
    (st : selection) (evs : list event) (i : nat) (p : task_struct) :
  for_each_process_of k m 0 ps (nothing_selected m) = Continue st evs →
  selected st = Some (i, p) →
  (∃ tsk, ps !! i = Some tsk
          ∧ find_lock_task_mm tsk = Some p
          ∧ Z.land (flags tsk) PF_KTHREAD = 0
          ∧ m ≤ task_score p
          ∧ 0 < task_size p)
  ∧ (∀ (fl : Z) (found : option task_struct) (j : nat) (st0 : selection),
       Z.land fl PF_KTHREAD ≠ 0 →
       scan_body_of k m j (mk_process fl found) st0 = Continue st0 []).
Proof.
  intros Hscan Hsel. split.
  - pose proof (for_each_process_best_of k m ps [] _ st evs (best_of_nil m m) Hscan)
      as Hbest.
    unfold best_of in Hbest. rewrite Hsel in Hbest. cbn [app] in Hbest.
    destruct Hbest as ((tsk & Hi & Hk & Hp & Hscore & Hsize) & _).
    exists tsk. repeat split; try assumption.
    unfold is_kthread in Hk. apply negb_false_iff, Z.eqb_eq in Hk. exact Hk.
  - intros fl found j st0 Hfl. unfold scan_body, is_kthread. cbn [flags].
    rewrite (proj2 (Z.eqb_neq _ _) Hfl). reflexivity.
Qed.

(** C3, as the code has it.  Of the candidates with the highest score the
    scan comes back with the last one in the order of the list, not the
    first: no candidate has a higher score than the selected task, and none
    of the same score comes after it.  The resident sizes have no part in
    the choice: with other sizes in the list, as long as the same tasks have
    pages at all, the scan selects the task at the same position. *)
Theorem last_of_highest_score_wins (k : kernel) (m : Z) (ps : list process)
    (st : selection) (evs : list event) (i : nat) (p : task_struct) :
  for_each_process_of k m 0 ps (nothing_selected m) = Continue st evs →
  selected st = Some (i, p) →
  (∀ (j : nat) (tsk : process) (q : task_struct),
     ps !! j = Some tsk → candidate_of m tsk q →
     task_score q ≤ task_score p ∧ (task_score q = task_score p → (j ≤ i)%nat))
  ∧ (∀ ps' : list process,
       Forall2 same_but_size ps ps' →
       ∃ st' evs' p',
         for_each_process_of k m 0 ps' (nothing_selected m) = Continue st' evs'
         ∧ selected st' = Some (i, p')).
Proof.
  intros Hscan Hsel. split.
  - pose proof (for_each_process_best_of k m ps [] _ st evs (best_of_nil m m) Hscan)
      as Hbest.
    unfold best_of in Hbest. rewrite Hsel in Hbest. cbn [app] in Hbest.
    destruct Hbest as (_ & _ & _ & Hbest). exact Hbest.
  - intros ps' Hps'.
    assert (Hall : Forall2 (scan_alike PF_KTHREAD k k) ps ps').
    { eapply Forall2_impl; [exact Hps'|]. intros ? ?. apply same_but_size_alike. }
    assert (Hinit : sel_alike (nothing_selected m) (nothing_selected m))
      by (split; [constructor|reflexivity]).
    pose proof (for_each_process_alike k k m ps ps' Hall 0%nat _ _ Hinit) as Hrel.
    rewrite Hscan in Hrel.
    destruct (for_each_process_of k m 0 ps' (nothing_selected m))
      as [st' evs'|]; cbn [step_alike] in Hrel; [|contradiction].
    destruct Hrel as [Hrel _]. rewrite Hsel in Hrel.
    inversion Hrel as [a [i' p'] [Hidx _] Ha Hb|]; subst. cbn in Hidx. subst i'.
    exists st', evs', p'. split; [reflexivity|]. symmetry. assumption.
Qed.

(** ** The paths through [lowmem_shrink] *)

Lemma lowmem_print_events (k : kernel) (level : Z) (m : message) (e : event) :
  e ∈ lowmem_print k level m → e = Printk m.
Proof.
  unfold lowmem_print. destruct (level <=? lowmem_debug_level k); intros He.
  - apply list_elem_of_singleton in He. exact He.
  - apply elem_of_nil in He. destruct He.
Qed.

Lemma scan_event_no_kill (lo hi : nat) (e : event) :
  scan_event lo hi e → ¬ kill_event e.
Proof. destruct e; cbn; tauto. Qed.

Lemma shrink_short_circuit (k : kernel) (nr gfp : Z) :
  min_score_adj_of k = short_circuit_value OOM_ADJUST_MAX →
  shrink_of k nr gfp = mk_result 0 k [].
Proof.
  unfold short_circuit_value, lowmem_shrink. intros ->.
  rewrite Z.eqb_refl. reflexivity.
Qed.

Lemma shrink_query (k : kernel) (nr gfp : Z) :
  min_score_adj_of k ≠ short_circuit_value OOM_ADJUST_MAX →
  nr ≤ 0 →
  shrink_of k nr gfp =
  mk_result (lowmem_rem k) k
    (lowmem_print k 5 (MsgReturn nr gfp (lowmem_rem k))).
Proof.
  unfold short_circuit_value, lowmem_shrink. intros Hne Hnr.
  rewrite (proj2 (Z.eqb_neq _ _) Hne).
  rewrite (proj2 (Z.ltb_ge _ _) Hnr), (proj2 (Z.leb_le _ _) Hnr). reflexivity.
Qed.

Lemma shrink_scan (k : kernel) (nr gfp : Z) :
  min_score_adj_of k ≠ short_circuit_value OOM_ADJUST_MAX →
  0 < nr →
  shrink_of k nr gfp =
  match scan_of k with
  | Return ret evs => mk_result ret k (banner_of k nr gfp ++ RcuReadLock :: evs)
  | Continue st evs =>
      match selected st with
      | Some (i, p) =>
          let rem := to_int (lowmem_rem k - selected_tasksize st) in
          mk_result rem (with_kill k (ulong_add (jiffies k) HZ) i)
            (banner_of k nr gfp ++ RcuReadLock :: evs
             ++ lowmem_print k 1
                  (MsgSendSigkill (pid p) (comm p)
                     (selected_oom_score_adj st) (selected_tasksize st))
             ++ [SendSig SIGKILL i (pid p); SetTskThreadFlagMemdie i]
             ++ lowmem_print k 4 (MsgReturn nr gfp rem)
             ++ [RcuReadUnlock; CompactNodes false])
      | None =>
          mk_result (-1) k
            (banner_of k nr gfp ++ RcuReadLock :: evs
             ++ lowmem_print k 4 (MsgReturn nr gfp (-1))
             ++ [RcuReadUnlock])
      end
  end.
Proof.
  unfold short_circuit_value, lowmem_shrink, shrink_banner. intros Hne Hnr.
  rewrite (proj2 (Z.eqb_neq _ _) Hne).
  rewrite (proj2 (Z.ltb_lt _ _) Hnr), (proj2 (Z.leb_gt _ _) Hnr). reflexivity.
Qed.

(** What a process list changes: nothing in the threshold check. *)
Lemma min_score_adj_with_tasks (k : kernel) (ps : list process) :
  min_score_adj_of (with_tasks k ps) = min_score_adj_of k.
Proof.
  unfold lowmem_min_score_adj.
  change (array_size (with_tasks k ps)) with (array_size k).
  apply threshold_loop_ext; reflexivity.
Qed.

Lemma shrink_banner_with_tasks (k : kernel) (ps : list process) (nr gfp : Z) :
  banner_of (with_tasks k ps) nr gfp = banner_of k nr gfp.
Proof.
  unfold shrink_banner. rewrite min_score_adj_with_tasks. reflexivity.
Qed.

(** The loop reads the clock, the deadline and the debug level of the
    kernel, and the process list it is given. *)
Lemma for_each_process_ext (k k' : kernel) (m : Z) (ps : list process) :
  jiffies k' = jiffies k →
  lowmem_deathpending_timeout k' = lowmem_deathpending_timeout k →
  lowmem_debug_level k' = lowmem_debug_level k →
  ∀ (a : nat) (st : selection),
    for_each_process_of k' m a ps st = for_each_process_of k m a ps st.
Proof.
  intros Hj Ht Hd. induction ps as [|tsk ps IH]; intros a st;
    cbn [for_each_process]; [reflexivity|].
  assert (Hbody : scan_body_of k' m a tsk st = scan_body_of k m a tsk st).
  { unfold scan_body, lowmem_print. rewrite Hj, Ht, Hd. reflexivity. }
  rewrite Hbody. destruct (scan_body_of k m a tsk st); [|reflexivity].
  rewrite IH. reflexivity.
Qed.

(** The events of a call that never enters the scan, or comes back from it
    without a victim, include none that a kill brings about. *)
Lemma banner_no_kill (k : kernel) (nr gfp : Z) (e : event) :
  e ∈ banner_of k nr gfp → ¬ kill_event e.
Proof. intros He. apply lowmem_print_events in He as ->. cbn. tauto. Qed.

(** In the scanning mode, a task that is marked as dying before the
    deadline makes the call return 0 with the kernel as it was, whatever
    follows that task in the list; nothing is killed and no later task is
    locked. *)
Lemma shrink_stops_at (k : kernel) (nr gfp : Z) (pre : list process)
    (tsk : process) (p : task_struct) :
  0 < nr →
  is_kthread PF_KTHREAD tsk = false →
  find_lock_task_mm tsk = Some p →
  death_pending k p →
  ∃ evs,
    (∀ post,
       shrink_of (with_tasks k (pre ++ tsk :: post)) nr gfp
       = mk_result 0 (with_tasks k (pre ++ tsk :: post)) evs)
    ∧ (∀ e, e ∈ evs → ¬ kill_event e)
    ∧ (∀ j, TaskLock j ∈ evs → (j ≤ length pre)%nat).
Proof.
  intros Hnr Hk Hp Hd.
  destruct (decide (min_score_adj_of k = short_circuit_value OOM_ADJUST_MAX))
    as [Heq|Hne].
  - exists []. split; [|split].
    + intros post. apply shrink_short_circuit.
      rewrite min_score_adj_with_tasks. exact Heq.
    + intros e He. apply elem_of_nil in He. destruct He.
    + intros j Hj. apply elem_of_nil in Hj. destruct Hj.
  - destruct (for_each_process_abort k (min_score_adj_of k) pre tsk p
                Hk Hp Hd 0%nat (nothing_selected (min_score_adj_of k)))
      as (evs & Hscan & Hevs).
    rewrite Forall_forall in Hevs.
    exists (banner_of k nr gfp ++ RcuReadLock :: evs). split; [|split].
    + intros post.
      rewrite shrink_scan by (rewrite ?min_score_adj_with_tasks; assumption).
      unfold lowmem_scan. rewrite min_score_adj_with_tasks.
      change (tasks (with_tasks k (pre ++ tsk :: post)))
        with (pre ++ tsk :: post).
      rewrite (for_each_process_ext k (with_tasks k (pre ++ tsk :: post)))
        by reflexivity.
      rewrite Hscan, shrink_banner_with_tasks. reflexivity.
    + intros e He. apply elem_of_app in He as [He|He].
      * eapply banner_no_kill, He.
      * apply elem_of_cons in He as [->|He]; [cbn; tauto|].
        eapply scan_event_no_kill, Hevs, He.
    + intros j Hj. apply elem_of_app in Hj as [Hj|Hj].
      * apply lowmem_print_events in Hj. discriminate.
      * apply elem_of_cons in Hj as [Hj|Hj]; [discriminate|].
        specialize (Hevs _ Hj). cbn in Hevs. lia.
Qed.

(** The kernel with the process list it already has. *)
Lemma with_tasks_same (k : kernel) : with_tasks k (tasks k) = k.
Proof. destruct k. reflexivity. Qed.

(** C4.  In the scanning mode ([nr_to_scan > 0]), when the process list
    holds, after the processes [pre], a process that is not a kernel thread
    and whose task is marked as dying while [jiffies] is at or before the
    stored deadline, the call returns 0 and leaves the kernel as it was (the
    deadline and the flags of every task are unchanged), no kill is issued,
    no task after that process is locked, and the call does the same
    whatever processes [post'] follow it: the scan stops there. *)
Theorem pending_death_stops_the_scan (k : kernel) (nr gfp : Z)
    (pre post : list process) (tsk : process) (p : task_struct) :
  0 < nr →
  tasks k = pre ++ tsk :: post →
  Z.land (flags tsk) PF_KTHREAD = 0 →
  find_lock_task_mm tsk = Some p →
  tif_memdie p = true →
  jiffies k ≤ lowmem_deathpending_timeout k →
  retval (shrink_of k nr gfp) = 0
  ∧ final (shrink_of k nr gfp) = k
  ∧ (∀ e, e ∈ effects (shrink_of k nr gfp) → ¬ kill_event e)
  ∧ (∀ j, TaskLock j ∈ effects (shrink_of k nr gfp) → (j ≤ length pre)%nat)
  ∧ (∀ post',
       retval (shrink_of (with_tasks k (pre ++ tsk :: post')) nr gfp) = 0
       ∧ effects (shrink_of (with_tasks k (pre ++ tsk :: post')) nr gfp)
         = effects (shrink_of k nr gfp)).
Proof.
  intros Hnr Htasks Hflags Hp Hdie Htime.
  assert (Hk : is_kthread PF_KTHREAD tsk = false).
  { unfold is_kthread. rewrite Hflags. reflexivity. }
  assert (Hd : death_pending k p) by (split; assumption).
  destruct (shrink_stops_at k nr gfp pre tsk p Hnr Hk Hp Hd)
    as (evs & Hrun & Hquiet & Hlocks).
  pose proof (Hrun post) as Hhere.
  rewrite <- Htasks, with_tasks_same in Hhere. rewrite Hhere.
  cbn [retval final effects]. repeat split; try assumption.
  - rewrite Hrun. reflexivity.
  - rewrite Hrun. reflexivity.
Qed.

(** C9.  The test for a dying task comes before the tests on the score and
    on the resident size.  Take a process that is not a kernel thread and
    whose task is marked as dying, with any score and any resident size
    (so also a score below the least score, or no pages at all), while
    [jiffies] is at or before the deadline.  The loop body leaves the
    function with 0 at that process, whatever the least score and whatever
    is selected so far; a scanning call on a process list that holds it
    returns 0, kills nothing and leaves the kernel as it was.  Without the
    mark, the same process with a score below the least score or without
    pages is passed over and the scan goes on. *)
Theorem pending_death_checked_before_the_filters (k : kernel) (nr gfp : Z)
    (fl id : Z) (name : string) (score rss : Z) :
  0 < nr →
  Z.land fl PF_KTHREAD = 0 →
  jiffies k ≤ lowmem_deathpending_timeout k →
  mk_process fl (Some (mk_task id name true score rss)) ∈ tasks k →
  (∀ m i st,
     scan_body_of k m i (mk_process fl (Some (mk_task id name true score rss))) st
     = Return 0 [TaskLock i; TaskUnlock i; RcuReadUnlock])
  ∧ retval (shrink_of k nr gfp) = 0
  ∧ final (shrink_of k nr gfp) = k
  ∧ (∀ e, e ∈ effects (shrink_of k nr gfp) → ¬ kill_event e)
  ∧ (∀ m i st,
       to_short score < m ∨ to_int rss ≤ 0 →
       scan_body_of k m i
         (mk_process fl (Some (mk_task id name false score rss))) st
       = Continue st [TaskLock i; TaskUnlock i]).
Proof.
  intros Hnr Hflags Htime Hin.
  set (p := mk_task id name true score rss).
  set (tsk := mk_process fl (Some p)) in *.
  assert (Hk : is_kthread PF_KTHREAD tsk = false).
  { unfold is_kthread. cbn [flags tsk]. rewrite Hflags. reflexivity. }
  assert (Hd : death_pending k p) by (split; [reflexivity|exact Htime]).
  split; [intros m i st; apply (scan_body_abort k m i tsk p st Hk eq_refl Hd)|].
  apply list_elem_of_split in Hin as (pre & post & Htasks).
  change (tasks k = pre ++ tsk :: post) in Htasks.
  destruct (shrink_stops_at k nr gfp pre tsk p Hnr Hk eq_refl Hd)
    as (evs & Hrun & Hquiet & _).
  specialize (Hrun post). rewrite <- Htasks, with_tasks_same in Hrun.
  rewrite Hrun. cbn [retval final effects].
  split; [reflexivity|]. split; [reflexivity|]. split; [exact Hquiet|].
  intros m i st Hout. rewrite scan_body_cases.
  change (is_kthread PF_KTHREAD (mk_process fl (Some (mk_task id name false score rss))))
    with (is_kthread PF_KTHREAD tsk).
  rewrite Hk. cbn [find_lock_task_mm tif_memdie andb].
  unfold task_score, task_size. cbn [signal_oom_score_adj mm_rss].
  destruct Hout as [Hlow|Hnone].
  - rewrite (proj2 (Z.ltb_lt _ _) Hlow). reflexivity.
  - rewrite (proj2 (Z.leb_le _ _) Hnone), orb_true_r. reflexivity.
Qed.

(** ** A kill *)

(** C5.  Take a scanning call ([nr_to_scan > 0]) that gets as far as the
    scan, and whose scan comes back with the task [p] of the process at
    position [i].  Then the deadline becomes [jiffies + HZ] as line 176 adds
    them, in [unsigned long], which is their plain sum whenever that fits;
    SIGKILL is sent to [p], [p] is marked as dying in the process list,
    compaction is asked for, and, the difference being an [int], the value
    returned is the sum of the active and inactive, anonymous and file pages
    minus the resident size of [p]. *)
Theorem kill_arms_deadline_and_returns_difference (k : kernel) (nr gfp : Z)
    (st : selection) (evs : list event) (i : nat) (p : task_struct) :
  0 < nr →
  min_score_adj_of k ≠ short_circuit_value OOM_ADJUST_MAX →
  scan_of k = Continue st evs →
  selected st = Some (i, p) →
  fits_int (total_reclaimable k - mm_rss p) →
  lowmem_deathpending_timeout (final (shrink_of k nr gfp))
  = ulong_add (jiffies k) HZ
  ∧ (jiffies k + HZ ≤ ULONG_MAX →
     lowmem_deathpending_timeout (final (shrink_of k nr gfp)) = jiffies k + HZ)
  ∧ SendSig SIGKILL i (pid p) ∈ effects (shrink_of k nr gfp)
  ∧ (∃ tsk, tasks (final (shrink_of k nr gfp)) !! i = Some tsk
            ∧ find_lock_task_mm tsk = Some (set_memdie p)
            ∧ tif_memdie (set_memdie p) = true)
  ∧ CompactNodes false ∈ effects (shrink_of k nr gfp)
  ∧ retval (shrink_of k nr gfp) = total_reclaimable k - mm_rss p.
Proof.
  intros Hnr Hne Hscan Hsel Hfit.
  pose proof (lowmem_scan_best_of k st evs Hscan) as Hbest.
  unfold best_of in Hbest. rewrite Hsel in Hbest.
  destruct Hbest as ((tsk & Hi & _ & Hp & _) & _ & Hsize & _).
  rewrite shrink_scan by assumption. rewrite Hscan, Hsel.
  cbn [retval final effects lowmem_deathpending_timeout with_kill tasks].
  split; [reflexivity|]. split; [apply ulong_add_fits|].
  split; [find_event|]. split; [|split; [find_event|]].
  - exists (set_tsk_thread_flag_memdie tsk).
    rewrite list_lookup_alter_eq, Hi. split; [reflexivity|].
    unfold set_tsk_thread_flag_memdie. cbn [find_lock_task_mm]. rewrite Hp.
    split; reflexivity.
  - rewrite Hsize. unfold lowmem_rem, task_size. rewrite to_int_sub.
    apply to_int_id, Hfit.
Qed.

(** Where line 109 lets the call through: take a scanning call
    ([nr_to_scan > 0]) whose [min_score_adj] is not [OOM_ADJUST_MAX + 1],
    with a process list in which no task is marked as dying before the
    deadline and no process passes the filters (all scores are below the
    least score, say).  The call returns -1, which is not the 0 of the other
    paths, kills nothing and leaves the kernel as it was. *)
Theorem no_victim_returns_minus_one (k : kernel) (nr gfp : Z) :
  0 < nr →
  min_score_adj_of k ≠ short_circuit_value OOM_ADJUST_MAX →
  (∀ tsk p, tsk ∈ tasks k → Z.land (flags tsk) PF_KTHREAD = 0 →
            find_lock_task_mm tsk = Some p → ¬ death_pending k p) →
  (∀ tsk p, tsk ∈ tasks k → ¬ candidate_of (min_score_adj_of k) tsk p) →
  retval (shrink_of k nr gfp) = -1
  ∧ retval (shrink_of k nr gfp) ≠ 0
  ∧ final (shrink_of k nr gfp) = k
  ∧ (∀ e, e ∈ effects (shrink_of k nr gfp) → ¬ kill_event e).
Proof.
  intros Hnr Hne Hquiet Hnone.
  destruct (for_each_process_completes k (min_score_adj_of k) (tasks k) 0%nat
              (nothing_selected (min_score_adj_of k))) as (st & evs & Hscan).
  { intros tsk p Hin Hk. apply Hquiet; [exact Hin|].
    unfold is_kthread in Hk. apply negb_false_iff, Z.eqb_eq in Hk. exact Hk. }
  pose proof (lowmem_scan_best_of k st evs Hscan) as Hbest.
  pose proof (for_each_process_events k (min_score_adj_of k) (tasks k) 0%nat
                (nothing_selected (min_score_adj_of k))) as Hevs.
  rewrite Hscan, Forall_forall in Hevs. cbn [step_events] in Hevs.
  rewrite shrink_scan by assumption. unfold lowmem_scan. rewrite Hscan.
  unfold best_of in Hbest. destruct (selected st) as [[i p]|].
  - destruct Hbest as ((tsk & Hi & Hc) & _).
    destruct (Hnone tsk p (list_elem_of_lookup_2 _ _ _ Hi) Hc).
  - cbn [retval final effects]. repeat split; [lia|].
    intros e He. apply elem_of_app in He as [He|He]; [eapply banner_no_kill, He|].
    apply elem_of_cons in He as [->|He]; [cbn; tauto|].
    apply elem_of_app in He as [He|He]; [eapply scan_event_no_kill, Hevs, He|].
    apply elem_of_app in He as [He|He].
    + apply lowmem_print_events in He as ->. cbn. tauto.
    + apply list_elem_of_singleton in He as ->. cbn. tauto.
Qed.

(** ** The query mode *)

(** X13.  With [nr_to_scan <= 0] the call changes nothing in the kernel,
    does nothing but print, and does not depend on the process list. *)
Lemma query_mode_has_no_effect (k : kernel) (nr gfp : Z) :
  nr ≤ 0 →
  final (shrink_of k nr gfp) = k
  ∧ (∀ e, e ∈ effects (shrink_of k nr gfp) → ∃ m, e = Printk m)
  ∧ (∀ ps, retval (shrink_of (with_tasks k ps) nr gfp) = retval (shrink_of k nr gfp)
           ∧ effects (shrink_of (with_tasks k ps) nr gfp)
             = effects (shrink_of k nr gfp)).
Proof.
  intros Hnr.
  destruct (decide (min_score_adj_of k = short_circuit_value OOM_ADJUST_MAX))
    as [Heq|Hne].
  - rewrite shrink_short_circuit by exact Heq. cbn [final effects retval].
    split; [reflexivity|]. split.
    + intros e He. apply elem_of_nil in He. destruct He.
    + intros ps. rewrite shrink_short_circuit
        by (rewrite min_score_adj_with_tasks; exact Heq).
      split; reflexivity.
  - rewrite shrink_query by assumption. cbn [final effects retval].
    split; [reflexivity|]. split.
    + intros e He. apply lowmem_print_events in He. eauto.
    + intros ps. rewrite shrink_query
        by (rewrite ?min_score_adj_with_tasks; assumption).
      split; reflexivity.
Qed.

(** X14.  What the query mode returns, the sum of the four counters being
    an [int]: 0 when [min_score_adj] is [OOM_ADJUST_MAX + 1], and otherwise
    that sum. *)
Lemma query_mode_value (k : kernel) (nr gfp : Z) :
  nr ≤ 0 →
  fits_int (total_reclaimable k) →
  retval (shrink_of k nr gfp)
  = if decide (min_score_adj_of k = short_circuit_value OOM_ADJUST_MAX)
    then 0 else total_reclaimable k.
Proof.
  intros Hnr Hfit. destruct (decide _) as [Heq|Hne].
  - rewrite shrink_short_circuit by exact Heq. reflexivity.
  - rewrite shrink_query by assumption. cbn [retval].
    apply to_int_id, Hfit.
Qed.

(** ** When no threshold is crossed *)

(** The early [return 0] of line 109 is taken for an unmatched table
    exactly when the two header constants give the same number. *)
Lemma no_score_returns_zero_if_constants_agree (k : kernel) (nr gfp : Z) :
  to_short (OOM_SCORE_ADJ_MAX + 1) = short_circuit_value OOM_ADJUST_MAX →
  min_score_adj_of k = to_short (OOM_SCORE_ADJ_MAX + 1) →
  shrink_of k nr gfp = mk_result 0 k [].
Proof. intros Hsame Hnone. apply shrink_short_circuit. congruence. Qed.

Lemma no_score_goes_on_if_constants_differ (k : kernel) (nr gfp : Z) :
  to_short (OOM_SCORE_ADJ_MAX + 1) ≠ short_circuit_value OOM_ADJUST_MAX →
  min_score_adj_of k = to_short (OOM_SCORE_ADJ_MAX + 1) →
  (nr ≤ 0 → retval (shrink_of k nr gfp) = lowmem_rem k)
  ∧ (0 < nr → RcuReadLock ∈ effects (shrink_of k nr gfp)).
Proof.
  intros Hdiff Hnone.
  assert (Hne : min_score_adj_of k ≠ short_circuit_value OOM_ADJUST_MAX)
    by congruence.
  split; intros Hnr.
  - rewrite shrink_query by assumption. reflexivity.
  - rewrite shrink_scan by assumption.
    destruct (scan_of k) as [st evs|ret evs]; [|cbn [effects]; find_event].
    destruct (selected st) as [[i p]|]; cbn [effects]; find_event.
Qed.

(** ** After the deadline *)


(** A kill among the events of a call tells which path it took. *)
Lemma shrink_kill_inv (k : kernel) (nr gfp : Z) (sig : signal) (i : nat) (v : Z) :
  SendSig sig i v ∈ effects (shrink_of k nr gfp) →
  0 < nr
  ∧ min_score_adj_of k ≠ short_circuit_value OOM_ADJUST_MAX
  ∧ ∃ st evs p, scan_of k = Continue st evs ∧ selected st = Some (i, p)
                ∧ v = pid p.
Proof.
  intros Hkill.
  destruct (decide (min_score_adj_of k = short_circuit_value OOM_ADJUST_MAX))
    as [Heq|Hne].
  { rewrite shrink_short_circuit in Hkill by exact Heq.
    apply elem_of_nil in Hkill. destruct Hkill. }
  destruct (Z.le_gt_cases nr 0) as [Hnr|Hnr].
  { rewrite shrink_query in Hkill by assumption.
    apply lowmem_print_events in Hkill. discriminate. }
  split; [exact Hnr|]. split; [exact Hne|].
  rewrite shrink_scan in Hkill by assumption.
  pose proof (for_each_process_events k (min_score_adj_of k) (tasks k) 0%nat
                (nothing_selected (min_score_adj_of k))) as Hevs.
  rewrite Forall_forall in Hevs. unfold lowmem_scan in *.
  assert (Hbanner : SendSig sig i v ∉ banner_of k nr gfp).
  { intros He. apply (banner_no_kill _ _ _ _ He). exact I. }
  destruct (for_each_process_of k _ 0 (tasks k) _) as [st evs|ret evs];
    cbn [step_events] in Hevs.
  - destruct (selected st) as [[i0 p]|] eqn:Hsel; cbn [effects] in Hkill.
    + exists st, evs, p. split; [reflexivity|].
      apply elem_of_app in Hkill as [Hkill|Hkill]; [destruct (Hbanner Hkill)|].
      apply elem_of_cons in Hkill as [Hkill|Hkill]; [discriminate|].
      apply elem_of_app in Hkill as [Hkill|Hkill];
        [destruct (scan_event_no_kill _ _ _ (Hevs _ Hkill) I)|].
      apply elem_of_app in Hkill as [Hkill|Hkill];
        [apply lowmem_print_events in Hkill; discriminate|].
      apply elem_of_cons in Hkill as [Hkill|Hkill];
        [inversion Hkill; subst; split; [exact Hsel|reflexivity]|].
      apply elem_of_cons in Hkill as [Hkill|Hkill]; [discriminate|].
      apply elem_of_app in Hkill as [Hkill|Hkill];
        [apply lowmem_print_events in Hkill; discriminate|].
      apply elem_of_cons in Hkill as [Hkill|Hkill]; [discriminate|].
      apply list_elem_of_singleton in Hkill. discriminate.
    + exfalso.
      apply elem_of_app in Hkill as [Hkill|Hkill]; [destruct (Hbanner Hkill)|].
      apply elem_of_cons in Hkill as [Hkill|Hkill]; [discriminate|].
      apply elem_of_app in Hkill as [Hkill|Hkill];
        [destruct (scan_event_no_kill _ _ _ (Hevs _ Hkill) I)|].
      apply elem_of_app in Hkill as [Hkill|Hkill];
        [apply lowmem_print_events in Hkill; discriminate|].
      apply list_elem_of_singleton in Hkill. discriminate.
  - exfalso. cbn [effects] in Hkill.
    apply elem_of_app in Hkill as [Hkill|Hkill]; [destruct (Hbanner Hkill)|].
    apply elem_of_cons in Hkill as [Hkill|Hkill]; [discriminate|].
    destruct (scan_event_no_kill _ _ _ (Hevs _ Hkill) I).
Qed.



(** X15.  Until the deadline has passed, the task that was killed makes
    every scanning call return 0. *)
Lemma kill_then_zero_until_the_deadline (k : kernel) (nr gfp : Z) (i : nat)
    (v now' nr' gfp' : Z) :
  SendSig SIGKILL i v ∈ effects (shrink_of k nr gfp) →
  now' ≤ lowmem_deathpending_timeout (final (shrink_of k nr gfp)) →
  0 < nr' →
  retval (shrink_of (at_jiffies (final (shrink_of k nr gfp)) now') nr' gfp') = 0.
Proof.
  intros Hkill Hearly Hnr'.
  destruct (shrink_kill_inv _ _ _ _ _ _ Hkill)
    as (Hnr & Hne & st & evs & p & Hscan & Hsel & ->).
  pose proof (lowmem_scan_best_of k st evs Hscan) as Hbest.
  unfold best_of in Hbest. rewrite Hsel in Hbest.
  destruct Hbest as ((tsk & Hi & Hk & Hp & _) & _).
  assert (Hfinal : final (shrink_of k nr gfp) = with_kill k (ulong_add (jiffies k) HZ) i).
  { rewrite shrink_scan by assumption. rewrite Hscan, Hsel. reflexivity. }
  rewrite Hfinal in *.
  set (k' := at_jiffies (with_kill k (ulong_add (jiffies k) HZ) i) now') in *.
  assert (Hin : set_tsk_thread_flag_memdie tsk ∈ tasks k').
  { apply list_elem_of_lookup. exists i.
    change (tasks k') with (alter set_tsk_thread_flag_memdie i (tasks k)).
    rewrite list_lookup_alter_eq, Hi. reflexivity. }
  apply list_elem_of_split in Hin as (pre & post & Htasks).
  destruct (shrink_stops_at k' nr' gfp' pre (set_tsk_thread_flag_memdie tsk)
              (set_memdie p) Hnr') as (evs' & Hrun & _).
  - exact Hk.
  - unfold set_tsk_thread_flag_memdie. cbn [find_lock_task_mm]. rewrite Hp.
    reflexivity.
  - split; [reflexivity|exact Hearly].
  - specialize (Hrun post). rewrite <- Htasks, with_tasks_same in Hrun.
    rewrite Hrun. reflexivity.
Qed.

End HeaderFacts.

(** ** With the constants of the kernel headers *)

(** C2.  With [OOM_SCORE_ADJ_MAX] at 1000 and [OOM_ADJUST_MAX] at 15, a call
    for which no threshold is crossed does not return 0 at once.  The
    default table and 22000 pages free or in the file cache: every entry is
    at or below that number and [min_score_adj] keeps its 1001, which is not
    the 16 that line 109 looks for.  The query call returns the 7000 pages
    of the four lists, and the scanning call walks the process list (it
    locks the first task) and returns -1. *)
Theorem no_pressure_call_does_not_return_zero :
  Forall (λ i, minfree_at (relaxed [small_app]) i
               ≤ free_plus_cache (relaxed [small_app])) [0; 1; 2; 3]%nat
  ∧ effective_size (relaxed [small_app]) = 4
  ∧ Linux.lowmem_min_score_adj (relaxed [small_app]) = 1001
  ∧ short_circuit_value Linux.OOM_ADJUST_MAX = 16
  ∧ retval (Linux.lowmem_shrink (relaxed [small_app]) 0 0) = 7000
  ∧ retval (Linux.lowmem_shrink (relaxed [small_app]) 1 0) = -1
  ∧ effects (Linux.lowmem_shrink (relaxed [small_app]) 1 0)
    = [RcuReadLock; TaskLock 0; TaskUnlock 0; RcuReadUnlock].
Proof.
  split; [repeat constructor; vm_compute; discriminate|].
  repeat split; vm_compute; reflexivity.
Qed.

(** C7.  With the same constants, a query call ([nr_to_scan = 0]) whose
    matching entry has the score 16 returns 0 and not the sum of the four
    lists.  The table has the scores 0, 16, 100 and 200; with 3500 pages
    free or in the file cache the first entry (3072) is not above that
    number, the second (4096) is, and its score is 16.  The sum of the four
    lists is 7000; the call returns 0. *)
Theorem query_with_score_16_returns_zero :
  minfree_at (with_score_16 [small_app]) 0 ≤ free_plus_cache (with_score_16 [small_app])
  ∧ free_plus_cache (with_score_16 [small_app]) < minfree_at (with_score_16 [small_app]) 1
  ∧ Linux.lowmem_min_score_adj (with_score_16 [small_app]) = 16
  ∧ total_reclaimable (with_score_16 [small_app]) = 7000
  ∧ retval (Linux.lowmem_shrink (with_score_16 [small_app]) 0 0) = 0.
Proof.
  split; [vm_compute; discriminate|].
  repeat split; vm_compute; reflexivity.
Qed.

(** C6.  With the same constants, a scanning call ([nr_to_scan = 1]) whose
    matching entry has the score 16 returns 0 and not -1, although a
    threshold is crossed, no task is dying and no process passes the
    filters.  The table has the scores 16, 100, 200 and 300; with 2500
    pages free or in the file cache the first entry (3072) matches and
    [min_score_adj] is 16.  The only process has the score 8, below 16, and
    is not marked as dying.  Line 109 takes the 16 for the value of an
    unmatched table: the call returns 0 and does not enter the scan. *)
Theorem scan_with_score_16_returns_zero :
  free_plus_cache (first_score_16 [small_app])
  < minfree_at (first_score_16 [small_app]) 0
  ∧ Linux.lowmem_min_score_adj (first_score_16 [small_app]) = 16
  ∧ Forall (λ tsk, ∀ p, find_lock_task_mm tsk = Some p →
                        tif_memdie p = false
                        ∧ task_score p
                          < Linux.lowmem_min_score_adj (first_score_16 [small_app]))
      (tasks (first_score_16 [small_app]))
  ∧ Linux.lowmem_shrink (first_score_16 [small_app]) 1 0
    = mk_result 0 (first_score_16 [small_app]) [].
Proof.
  split; [vm_compute; reflexivity|]. split; [vm_compute; reflexivity|].
  split; [|vm_compute; reflexivity].
  apply Forall_cons. split; [|apply Forall_nil_2].
  intros p Hp. injection Hp as <-. split; vm_compute; reflexivity.
Qed.

(** C3 as stated fails.  Two processes of score 8, of 100 and of 500
    resident pages, in that order: the scan selects the second, so the first
    of the two, a candidate of the same score, does not win. *)
Lemma first_of_highest_score_does_not_win :
  ¬ first_of_highest_score_wins Linux.PF_KTHREAD.
Proof.
  intros Hfirst.
  assert (Hlt : task_score (mk_task 101 "small" false 8 100)
                < task_score (mk_task 102 "large" false 8 500)).
  { eapply (Hfirst (under_pressure []) 1 [small_app; large_app] _ _ 1%nat _
              eq_refl eq_refl 0%nat small_app).
    - lia.
    - reflexivity.
    - repeat split; vm_compute; congruence. }
  vm_compute in Hlt. discriminate.
Qed.

(** The later of two processes of the same score is selected, be it the
    larger or the smaller of the two. *)
Example later_of_two_equals_is_selected :
  (∃ st evs, Linux.lowmem_scan (under_pressure [small_app; large_app])
             = Continue st evs ∧ fst <$> selected st = Some 1%nat)
  ∧ (∃ st evs, Linux.lowmem_scan (under_pressure [large_app; small_app])
               = Continue st evs ∧ fst <$> selected st = Some 1%nat).
Proof. split; eexists _, _; split; vm_compute; reflexivity. Qed.

(** ** The theorems at work *)

(** The threshold check on the default table: 3500 pages select the second
    entry, 22000 pages select none. *)
Lemma threshold_check_first_match_witness :
  Linux.lowmem_min_score_adj (under_pressure []) = 1
  ∧ Linux.lowmem_min_score_adj (relaxed []) = 1001.
Proof.
  split.
  - apply (proj1 (threshold_check_first_match 1000 (under_pressure [])
                    ltac:(vm_compute; split; discriminate)) 1%nat).
    + vm_compute. reflexivity.
    + intros j Hj. assert (j = 0%nat) as -> by lia. vm_compute. discriminate.
    + vm_compute. reflexivity.
  - apply (proj2 (threshold_check_first_match 1000 (relaxed [])
                    ltac:(vm_compute; split; discriminate))).
    intros i Hi. change (effective_size (relaxed [])) with 4 in Hi.
    assert (i = 0 ∨ i = 1 ∨ i = 2 ∨ i = 3)%nat as [->|[->|[->| ->]]] by lia;
      vm_compute; discriminate.
Defined.

(** The selected task of two equal ones passes the filters. *)
Lemma victim_passes_every_filter_witness :
  ∃ tsk, [small_app; large_app] !! 1%nat = Some tsk
         ∧ find_lock_task_mm tsk = Some (mk_task 102 "large" false 8 500)
         ∧ Z.land (flags tsk) Linux.PF_KTHREAD = 0
         ∧ 1 ≤ task_score (mk_task 102 "large" false 8 500)
         ∧ 0 < task_size (mk_task 102 "large" false 8 500).
Proof.
  eapply (proj1 (victim_passes_every_filter Linux.PF_KTHREAD (under_pressure [])
                   1 [small_app; large_app] _ _ 1%nat _ eq_refl eq_refl)).
Defined.

(** The process of score 8 and 100 pages does not beat the later one of
    score 8. *)
Lemma last_of_highest_score_wins_witness :
  task_score (mk_task 101 "small" false 8 100)
  ≤ task_score (mk_task 102 "large" false 8 500).
Proof.
  refine (proj1 (proj1 (last_of_highest_score_wins Linux.PF_KTHREAD
                          (under_pressure []) 1 [small_app; large_app]
                          _ _ 1%nat _ eq_refl eq_refl)
                   0%nat small_app _ eq_refl _)).
  repeat split; vm_compute; congruence.
Defined.

(** A dying task in second place, before the deadline: 0, and nothing
    changes. *)
Lemma pending_death_stops_the_scan_witness :
  retval (Linux.lowmem_shrink (cooling_down [small_app; dying_app; large_app]) 1 0) = 0
  ∧ final (Linux.lowmem_shrink (cooling_down [small_app; dying_app; large_app]) 1 0)
    = cooling_down [small_app; dying_app; large_app].
Proof.
  pose proof (pending_death_stops_the_scan Linux.OOM_SCORE_ADJ_MAX
                Linux.OOM_ADJUST_MAX Linux.PF_KTHREAD Linux.HZ
                (cooling_down [small_app; dying_app; large_app]) 1 0
                [small_app] [large_app] dying_app
                (mk_task 103 "dying" true (-5) 0)
                ltac:(lia) eq_refl eq_refl eq_refl eq_refl
                ltac:(vm_compute; discriminate)) as (Hret & Hfinal & _).
  split; [exact Hret|exact Hfinal].
Defined.

(** The same for a dying task of score -5 and without pages. *)
Lemma pending_death_checked_before_the_filters_witness :
  retval (Linux.lowmem_shrink (cooling_down [dying_app; large_app]) 1 0) = 0.
Proof.
  refine (proj1 (proj2 (pending_death_checked_before_the_filters
                          Linux.OOM_SCORE_ADJ_MAX Linux.OOM_ADJUST_MAX
                          Linux.PF_KTHREAD Linux.HZ
                          (cooling_down [dying_app; large_app]) 1 0
                          0 103 "dying" (-5) 0 _ eq_refl _ _))).
  - lia.
  - vm_compute. discriminate.
  - apply list_elem_of_here.
Defined.

(** A kill under pressure: the deadline moves to 105 and 7000 - 500 pages
    are reported. *)
Lemma kill_arms_deadline_and_returns_difference_witness :
  lowmem_deathpending_timeout
    (final (Linux.lowmem_shrink (under_pressure [small_app; large_app]) 1 0))
  = 105
  ∧ retval (Linux.lowmem_shrink (under_pressure [small_app; large_app]) 1 0)
    = 6500.
Proof.
  pose proof (kill_arms_deadline_and_returns_difference Linux.OOM_SCORE_ADJ_MAX
                Linux.OOM_ADJUST_MAX Linux.PF_KTHREAD Linux.HZ
                (under_pressure [small_app; large_app]) 1 0 _ _ 1%nat
                (mk_task 102 "large" false 8 500)
                ltac:(lia) ltac:(vm_compute; discriminate) eq_refl eq_refl
                ltac:(vm_compute; split; discriminate))
    as (Htimeout & _ & _ & _ & _ & Hret).
  split; [exact Htimeout|exact Hret].
Defined.

(** Under pressure with only a process of score 0 and a kernel thread: -1. *)
Lemma no_victim_returns_minus_one_witness :
  retval (Linux.lowmem_shrink (under_pressure [system_app; kthreadd]) 1 0) = -1.
Proof.
  refine (proj1 (no_victim_returns_minus_one Linux.OOM_SCORE_ADJ_MAX
                   Linux.OOM_ADJUST_MAX Linux.PF_KTHREAD Linux.HZ
                   (under_pressure [system_app; kthreadd]) 1 0 _ _ _ _)).
  - lia.
  - vm_compute. discriminate.
  - intros tsk p Hin _ Hp [Hdie _].
    apply elem_of_cons in Hin as [->|Hin];
      [|apply list_elem_of_singleton in Hin as ->];
      cbn in Hp; [|discriminate].
    injection Hp as <-. discriminate.
  - intros tsk p Hin (Hk & Hp & Hscore & _).
    apply elem_of_cons in Hin as [->|Hin];
      [|apply list_elem_of_singleton in Hin as ->];
      cbn in Hp; [|discriminate].
    injection Hp as <-. vm_compute in Hscore. apply Hscore. reflexivity.
Defined.


(** * Further properties of [lowmem_shrink] *)

Section MoreHeaderFacts.

Variables (OOM_SCORE_ADJ_MAX OOM_ADJUST_MAX PF_KTHREAD HZ : Z).

Local Abbreviation min_score_adj_of := (lowmem_min_score_adj OOM_SCORE_ADJ_MAX).
Local Abbreviation scan_body_of := (scan_body PF_KTHREAD).
Local Abbreviation for_each_process_of := (for_each_process PF_KTHREAD).
Local Abbreviation scan_of := (lowmem_scan OOM_SCORE_ADJ_MAX PF_KTHREAD).
Local Abbreviation shrink_of :=
  (lowmem_shrink OOM_SCORE_ADJ_MAX OOM_ADJUST_MAX PF_KTHREAD HZ).
Local Abbreviation banner_of := (shrink_banner OOM_SCORE_ADJ_MAX).
Local Abbreviation candidate_of := (candidate PF_KTHREAD).

(** ** Locks *)

Lemma lock_run_app (s : lock_state) (evs1 evs2 : list event) :
  lock_run s (evs1 ++ evs2)
  = match lock_run s evs1 with
    | Some s' => lock_run s' evs2
    | None => None
    end.
Proof.
  revert s. induction evs1 as [|e evs1 IH]; intros s; cbn [app lock_run];
    [reflexivity|].
  destruct (lock_step s e); [apply IH|reflexivity].
Qed.

Lemma lock_run_print (s : lock_state) (k : kernel) (level : Z) (m : message) :
  lock_run s (lowmem_print k level m) = Some s.
Proof. unfold lowmem_print. destruct (level <=? lowmem_debug_level k); reflexivity. Qed.

(** Inside the read section and with no task locked, the loop either goes
    on in the same state or leaves with everything released. *)
Lemma for_each_process_locks (k : kernel) (m : Z) (ps : list process) :
  ∀ (a : nat) (st : selection),
    match for_each_process_of k m a ps st with
    | Continue _ evs => lock_run (mk_locks true None) evs = Some (mk_locks true None)
    | Return _ evs => lock_run (mk_locks true None) evs = Some nothing_held
    end.
Proof.
  induction ps as [|tsk ps IH]; intros a st; cbn [for_each_process];
    [reflexivity|].
  assert (Hbody : match scan_body_of k m a tsk st with
                  | Continue _ evs =>
                      lock_run (mk_locks true None) evs = Some (mk_locks true None)
                  | Return _ evs =>
                      lock_run (mk_locks true None) evs = Some nothing_held
                  end).
  { rewrite scan_body_cases.
    destruct (is_kthread PF_KTHREAD tsk); [reflexivity|].
    destruct (find_lock_task_mm tsk) as [p|]; [|reflexivity].
    destruct (tif_memdie p && _);
      [cbn [lock_run lock_step rcu_held task_held];
       rewrite decide_True by reflexivity; reflexivity|].
    destruct (_ || _);
      [cbn [lock_run lock_step rcu_held task_held];
       rewrite decide_True by reflexivity; reflexivity|].
    cbn [app lock_run lock_step rcu_held task_held].
    rewrite decide_True by reflexivity. apply lock_run_print. }
  destruct (scan_body_of k m a tsk st) as [st1 evs1|ret evs1]; [|exact Hbody].
  specialize (IH (S a) st1).
  destruct (for_each_process_of k m (S a) ps st1) as [st2 evs2|ret evs2];
    rewrite lock_run_app, Hbody; exact IH.
Qed.

(** X1.  Every call keeps the lock discipline and ends with nothing held:
    the RCU read lock is taken once and dropped on every path that took it,
    each task that is locked is unlocked before the next is locked and
    before the read lock is dropped, the signal is sent and the flag set
    inside the read section, and [compact_nodes] is called after it. *)
Theorem every_lock_is_released (k : kernel) (nr gfp : Z) :
  lock_run nothing_held (effects (shrink_of k nr gfp)) = Some nothing_held.
Proof.
  destruct (decide (min_score_adj_of k = short_circuit_value OOM_ADJUST_MAX))
    as [Heq|Hne].
  { rewrite shrink_short_circuit by exact Heq. reflexivity. }
  destruct (Z.le_gt_cases nr 0) as [Hnr|Hnr].
  { rewrite shrink_query by assumption. apply lock_run_print. }
  rewrite shrink_scan by assumption.
  pose proof (for_each_process_locks k (min_score_adj_of k) (tasks k) 0%nat
                (nothing_selected (min_score_adj_of k))) as Hscan.
  unfold lowmem_scan, shrink_banner.
  destruct (for_each_process_of k _ 0 (tasks k) _) as [st evs|ret evs].
  - destruct (selected st) as [[i p]|]; cbn [effects];
      rewrite lock_run_app, lock_run_print;
      cbn [lock_run lock_step rcu_held task_held nothing_held];
      rewrite lock_run_app, Hscan, lock_run_app, lock_run_print.
    + cbn [app lock_run lock_step rcu_held task_held].
      rewrite lock_run_app, lock_run_print. reflexivity.
    + reflexivity.
  - cbn [effects]. rewrite lock_run_app, lock_run_print.
    cbn [lock_run lock_step rcu_held task_held nothing_held]. exact Hscan.
Qed.

(** ** What a call leaves behind *)

Lemma sent_signals_app (evs1 evs2 : list event) :
  sent_signals (evs1 ++ evs2) = sent_signals evs1 ++ sent_signals evs2.
Proof. apply omap_app. Qed.

Lemma sent_signals_cons (e : event) (evs : list event) :
  sent_signals (e :: evs)
  = match e with
    | SendSig _ i v => (i, v) :: sent_signals evs
    | _ => sent_signals evs
    end.
Proof. destruct e; reflexivity. Qed.

Lemma sent_signals_print (k : kernel) (level : Z) (m : message) :
  sent_signals (lowmem_print k level m) = [].
Proof. unfold lowmem_print. destruct (level <=? lowmem_debug_level k); reflexivity. Qed.

Lemma sent_signals_scan (lo hi : nat) (evs : list event) :
  Forall (scan_event lo hi) evs → sent_signals evs = [].
Proof.
  induction 1 as [|e evs He _ IH]; [reflexivity|].
  destruct e; cbn in He; try contradiction; exact IH.
Qed.

(** The two ways a call can end: without a trace in the kernel, or with one
    kill. *)
Lemma shrink_outcome (k : kernel) (nr gfp : Z) :
  (final (shrink_of k nr gfp) = k
   ∧ sent_signals (effects (shrink_of k nr gfp)) = []
   ∧ ∀ e, e ∈ effects (shrink_of k nr gfp) → ¬ kill_event e)
  ∨ (∃ st evs i p,
       0 < nr
       ∧ min_score_adj_of k ≠ short_circuit_value OOM_ADJUST_MAX
       ∧ scan_of k = Continue st evs
       ∧ selected st = Some (i, p)
       ∧ final (shrink_of k nr gfp) = with_kill k (ulong_add (jiffies k) HZ) i
       ∧ sent_signals (effects (shrink_of k nr gfp)) = [(i, pid p)]
       ∧ SetTskThreadFlagMemdie i ∈ effects (shrink_of k nr gfp)
       ∧ CompactNodes false ∈ effects (shrink_of k nr gfp)
       ∧ retval (shrink_of k nr gfp) = to_int (lowmem_rem k - task_size p)).
Proof.
  destruct (decide (min_score_adj_of k = short_circuit_value OOM_ADJUST_MAX))
    as [Heq|Hne].
  { left. rewrite shrink_short_circuit by exact Heq. cbn [final effects].
    repeat split. intros e He. apply elem_of_nil in He. destruct He. }
  destruct (Z.le_gt_cases nr 0) as [Hnr|Hnr].
  { left. rewrite shrink_query by assumption. cbn [final effects].
    split; [reflexivity|]. split; [apply sent_signals_print|].
    intros e He. apply lowmem_print_events in He as ->. cbn. tauto. }
  rewrite shrink_scan by assumption.
  pose proof (for_each_process_events PF_KTHREAD k (min_score_adj_of k) (tasks k)
                0%nat (nothing_selected (min_score_adj_of k))) as Hevs.
  destruct (scan_of k) as [st evs|ret evs] eqn:Hscan;
    unfold lowmem_scan in Hscan; rewrite Hscan in Hevs; cbn [step_events] in Hevs.
  - destruct (selected st) as [[i p]|] eqn:Hsel.
    + right. exists st, evs, i, p.
      pose proof (for_each_process_best_of PF_KTHREAD k _ (tasks k) [] _ st evs
                    (best_of_nil PF_KTHREAD _ _) Hscan) as Hbest.
      unfold best_of in Hbest. rewrite Hsel in Hbest.
      destruct Hbest as (_ & _ & Hsize & _).
      cbv zeta. cbn [final effects retval]. rewrite Hsize.
      repeat split; try assumption; try find_event.
      unfold shrink_banner.
      repeat first [ rewrite sent_signals_app | rewrite sent_signals_print
                   | rewrite (sent_signals_scan _ _ _ Hevs)
                   | rewrite sent_signals_cons ].
      reflexivity.
    + left. cbn [final effects]. split; [reflexivity|]. split.
      * unfold shrink_banner.
        repeat first [ rewrite sent_signals_app | rewrite sent_signals_print
                     | rewrite (sent_signals_scan _ _ _ Hevs)
                     | rewrite sent_signals_cons ].
        reflexivity.
      * rewrite Forall_forall in Hevs. intros e He.
        apply elem_of_app in He as [He|He]; [eapply banner_no_kill, He|].
        apply elem_of_cons in He as [->|He]; [cbn; tauto|].
        apply elem_of_app in He as [He|He]; [eapply scan_event_no_kill, Hevs, He|].
        apply elem_of_app in He as [He|He].
        -- apply lowmem_print_events in He as ->. cbn. tauto.
        -- apply list_elem_of_singleton in He as ->. cbn. tauto.
  - left. cbn [final effects]. split; [reflexivity|]. split.
    + unfold shrink_banner.
      rewrite sent_signals_app, sent_signals_print, sent_signals_cons.
      apply (sent_signals_scan _ _ _ Hevs).
    + rewrite Forall_forall in Hevs. intros e He.
      apply elem_of_app in He as [He|He]; [eapply banner_no_kill, He|].
      apply elem_of_cons in He as [->|He]; [cbn; tauto|].
      eapply scan_event_no_kill, Hevs, He.
Qed.

(** X2.  A call sends at most one signal.  If it sends none, it leaves the
    kernel as it was and none of its events is one of a kill; if it sends
    one, to the task at position [i], it also sets the flag of that task,
    asks for compaction and moves the deadline to [jiffies + HZ] as line 176
    adds them, in [unsigned long]. *)
Theorem at_most_one_kill_per_call (k : kernel) (nr gfp : Z) :
  (length (sent_signals (effects (shrink_of k nr gfp))) ≤ 1)%nat
  ∧ (sent_signals (effects (shrink_of k nr gfp)) = [] →
     final (shrink_of k nr gfp) = k
     ∧ ∀ e, e ∈ effects (shrink_of k nr gfp) → ¬ kill_event e)
  ∧ (∀ i v,
       (i, v) ∈ sent_signals (effects (shrink_of k nr gfp)) →
       SetTskThreadFlagMemdie i ∈ effects (shrink_of k nr gfp)
       ∧ CompactNodes false ∈ effects (shrink_of k nr gfp)
       ∧ lowmem_deathpending_timeout (final (shrink_of k nr gfp))
         = ulong_add (jiffies k) HZ).
Proof.
  destruct (shrink_outcome k nr gfp)
    as [(Hfinal & Hnone & Hquiet)
       |(st & evs & i & p & _ & _ & _ & _ & Hfinal & Hone & Hflag & Hcompact & _)].
  - rewrite Hnone. split; [cbn; lia|]. split; [auto|].
    intros i v Hin. apply elem_of_nil in Hin. destruct Hin.
  - rewrite Hone. split; [cbn; lia|]. split; [discriminate|].
    intros i' v Hin. apply list_elem_of_singleton in Hin. injection Hin as -> ->.
    rewrite Hfinal. repeat split; assumption.
Qed.

(** X3.  A call writes nothing but the deadline and the flag of the task
    it kills: the parameters, the clock and the page counters are as
    before, the process list has the same length, and every process is as
    before but the one at the position the signal went to, whose task has
    the flag set. *)
Theorem call_writes_deadline_and_flag_only (k : kernel) (nr gfp : Z) :
  lowmem_debug_level (final (shrink_of k nr gfp)) = lowmem_debug_level k
  ∧ lowmem_adj (final (shrink_of k nr gfp)) = lowmem_adj k
  ∧ lowmem_adj_size (final (shrink_of k nr gfp)) = lowmem_adj_size k
  ∧ lowmem_minfree (final (shrink_of k nr gfp)) = lowmem_minfree k
  ∧ lowmem_minfree_size (final (shrink_of k nr gfp)) = lowmem_minfree_size k
  ∧ jiffies (final (shrink_of k nr gfp)) = jiffies k
  ∧ global_page_state (final (shrink_of k nr gfp)) = global_page_state k
  ∧ length (tasks (final (shrink_of k nr gfp))) = length (tasks k)
  ∧ ∀ j,
      tasks (final (shrink_of k nr gfp)) !! j = tasks k !! j
      ∨ ((∃ v, sent_signals (effects (shrink_of k nr gfp)) = [(j, v)])
         ∧ tasks (final (shrink_of k nr gfp)) !! j
           = set_tsk_thread_flag_memdie <$> tasks k !! j).
Proof.
  destruct (shrink_outcome k nr gfp)
    as [(Hfinal & _)
       |(st & evs & i & p & _ & _ & _ & _ & Hfinal & Hone & _)];
    rewrite Hfinal.
  - repeat split. intros j. left. reflexivity.
  - cbn [with_kill lowmem_debug_level lowmem_adj lowmem_adj_size lowmem_minfree
           lowmem_minfree_size jiffies global_page_state tasks].
    rewrite length_alter. repeat split. intros j.
    destruct (decide (i = j)) as [->|Hij].
    + right. split; [exists (pid p); exact Hone|apply list_lookup_alter_eq].
    + left. apply list_lookup_alter_ne, Hij.
Qed.

(** ** More on the threshold loop *)

(** What the loop comes back with is the initial value or one of the
    scores it walked over. *)
Lemma threshold_loop_range (k : kernel) (d : Z) (n : nat) :
  ∀ a : nat,
    threshold_loop k (seq a n) d = d
    ∨ ∃ j : nat, (a ≤ j < a + n)%nat ∧ threshold_loop k (seq a n) d = adj_at k j.
Proof.
  induction n as [|n IH]; intros a; cbn [seq threshold_loop]; [left; reflexivity|].
  destruct (_ <? _).
  - right. exists a. split; [lia|reflexivity].
  - destruct (IH (S a)) as [->|(j & Hj & ->)]; [left; reflexivity|].
    right. exists j. split; [lia|reflexivity].
Qed.

Lemma threshold_loop_mono (k k' : kernel) (d : Z) (n : nat) :
  (∀ i, adj_at k' i = adj_at k i) →
  (∀ i, minfree_at k' i = minfree_at k i) →
  pages_seen k' ≤ pages_seen k →
  ∀ a : nat,
    (∀ i j : nat, (a ≤ i)%nat → (i ≤ j)%nat → (j < a + n)%nat →
                  adj_at k i ≤ adj_at k j) →
    (∀ i : nat, (a ≤ i < a + n)%nat → adj_at k i ≤ d) →
    threshold_loop k' (seq a n) d ≤ threshold_loop k (seq a n) d.
Proof.
  intros Hadj Hminfree Hpages. unfold pages_seen in Hpages.
  induction n as [|n IH]; intros a Hsorted Hbound; cbn [seq threshold_loop];
    [lia|].
  rewrite Hadj, Hminfree.
  destruct (Z.ltb_spec (to_int (other_free k' + other_file k')) (minfree_at k a))
    as [Hhit'|Hmiss'].
  - destruct (Z.ltb_spec (to_int (other_free k + other_file k)) (minfree_at k a))
      as [Hhit|Hmiss]; [lia|].
    destruct (threshold_loop_range k d n (S a)) as [->|(j & Hj & ->)].
    + apply Hbound. lia.
    + apply Hsorted; lia.
  - rewrite (proj2 (Z.ltb_ge _ _) (Z.le_trans _ _ _ Hmiss' Hpages)).
    apply IH.
    + intros i j Hi Hij Hj. apply Hsorted; lia.
    + intros i Hi. apply Hbound. lia.
Qed.

(** X4.  With scores in ascending order, none above the initial value of
    [min_score_adj], less memory never gives a higher least score: if the
    page counters change so that the loop sees fewer free and file pages,
    [min_score_adj] comes out the same or lower.  Nothing is asked of the
    order of [lowmem_minfree]. *)
Theorem less_memory_never_raises_the_score (k : kernel)
    (g : zone_stat_item → Z) :
  (∀ i j : nat, (i ≤ j)%nat → Z.of_nat j < effective_size k →
                adj_at k i ≤ adj_at k j) →
  (∀ i : nat, Z.of_nat i < effective_size k →
              adj_at k i ≤ to_short (OOM_SCORE_ADJ_MAX + 1)) →
  pages_seen (with_page_state k g) ≤ pages_seen k →
  min_score_adj_of (with_page_state k g) ≤ min_score_adj_of k.
Proof.
  intros Hsorted Hbound Hpages. unfold lowmem_min_score_adj.
  change (array_size (with_page_state k g)) with (array_size k).
  rewrite array_size_min.
  apply threshold_loop_mono; try reflexivity; try assumption.
  - intros i j _ Hij Hj. apply Hsorted; lia.
  - intros i Hi. apply Hbound. lia.
Qed.

Lemma threshold_loop_agree (k k' : kernel) (d : Z) (n : nat) :
  pages_seen k' = pages_seen k →
  ∀ a : nat,
    (∀ i : nat, (a ≤ i < a + n)%nat →
                adj_at k' i = adj_at k i ∧ minfree_at k' i = minfree_at k i) →
    threshold_loop k' (seq a n) d = threshold_loop k (seq a n) d.
Proof.
  intros Hpages. unfold pages_seen in Hpages.
  induction n as [|n IH]; intros a Hsame; cbn [seq threshold_loop];
    [reflexivity|].
  destruct (Hsame a ltac:(lia)) as [-> ->]. rewrite Hpages, IH; [reflexivity|].
  intros i Hi. apply Hsame. lia.
Qed.

(** X5.  Only the entries below the least of the two sizes and of six take
    part in the threshold check: two configurations with the same sizes
    that agree on those entries give the same [min_score_adj] for the same
    page counters, whatever the slots behind them hold; and when one of the
    sizes is zero or below, no entry is looked at and [min_score_adj] keeps
    its initial value. *)
Theorem slots_past_the_sizes_are_ignored (k k' : kernel) :
  lowmem_adj_size k' = lowmem_adj_size k →
  lowmem_minfree_size k' = lowmem_minfree_size k →
  global_page_state k' = global_page_state k →
  (∀ i : nat, Z.of_nat i < effective_size k →
              adj_at k' i = adj_at k i ∧ minfree_at k' i = minfree_at k i) →
  min_score_adj_of k' = min_score_adj_of k
  ∧ (effective_size k ≤ 0 →
     min_score_adj_of k = to_short (OOM_SCORE_ADJ_MAX + 1)).
Proof.
  intros Hadj_size Hminfree_size Hpages Hsame. unfold lowmem_min_score_adj.
  assert (Hsize : array_size k' = array_size k).
  { unfold array_size. rewrite Hadj_size, Hminfree_size. reflexivity. }
  rewrite Hsize, array_size_min. split.
  - apply threshold_loop_agree.
    + unfold pages_seen, other_free, other_file. rewrite Hpages. reflexivity.
    + intros i Hi. apply Hsame. lia.
  - intros Hempty. replace (Z.to_nat (effective_size k)) with 0%nat by lia.
    reflexivity.
Qed.

(** X6.  The example of the comment at the head of the file.  With "0,8"
    written to [adj] and "1024,4096" to [minfree], the least score is 0
    when fewer than 1024 pages are free or in the file cache, 8 when fewer
    than 4096 are, and none is chosen from 4096 pages on. *)
Theorem example_of_the_header_comment (k : kernel) :
  lowmem_adj_size k = 2 → lowmem_minfree_size k = 2 →
  adj_at k 0 = 0 → adj_at k 1 = 8 →
  minfree_at k 0 = 1024 → minfree_at k 1 = 4096 →
  (pages_seen k < 1024 → min_score_adj_of k = 0)
  ∧ (1024 ≤ pages_seen k < 4096 → min_score_adj_of k = 8)
  ∧ (4096 ≤ pages_seen k →
     min_score_adj_of k = to_short (OOM_SCORE_ADJ_MAX + 1)).
Proof.
  intros Hadj_size Hminfree_size Hadj0 Hadj1 Hminfree0 Hminfree1.
  assert (Hsize : array_size k = 2).
  { unfold array_size. rewrite Hadj_size, Hminfree_size. reflexivity. }
  unfold lowmem_min_score_adj, pages_seen. rewrite Hsize.
  change (Z.to_nat 2) with 2%nat. cbn [seq threshold_loop].
  rewrite Hadj0, Hadj1, Hminfree0, Hminfree1.
  split; [|split]; intros Hpages.
  - rewrite (proj2 (Z.ltb_lt _ _) Hpages). reflexivity.
  - rewrite (proj2 (Z.ltb_ge _ _) (proj1 Hpages)),
      (proj2 (Z.ltb_lt _ _) (proj2 Hpages)). reflexivity.
  - assert (Hfirst : 1024 ≤ to_int (other_free k + other_file k)) by lia.
    rewrite (proj2 (Z.ltb_ge _ _) Hfirst), (proj2 (Z.ltb_ge _ _) Hpages).
    reflexivity.
Qed.

(** ** Who is killed *)

(** What a scanning call that gets to the scan returns, leaves behind and
    sends, read off the result of the scan. *)
Lemma shrink_scan_summary (k : kernel) (nr gfp : Z) :
  min_score_adj_of k ≠ short_circuit_value OOM_ADJUST_MAX →
  0 < nr →
  match scan_of k with
  | Return ret _ =>
      retval (shrink_of k nr gfp) = ret
      ∧ final (shrink_of k nr gfp) = k
      ∧ sent_signals (effects (shrink_of k nr gfp)) = []
  | Continue st _ =>
      match selected st with
      | Some (i, p) =>
          retval (shrink_of k nr gfp)
          = to_int (lowmem_rem k - selected_tasksize st)
          ∧ final (shrink_of k nr gfp) = with_kill k (ulong_add (jiffies k) HZ) i
          ∧ sent_signals (effects (shrink_of k nr gfp)) = [(i, pid p)]
      | None =>
          retval (shrink_of k nr gfp) = -1
          ∧ final (shrink_of k nr gfp) = k
          ∧ sent_signals (effects (shrink_of k nr gfp)) = []
      end
  end.
Proof.
  intros Hne Hnr. rewrite shrink_scan by assumption.
  pose proof (for_each_process_events PF_KTHREAD k (min_score_adj_of k) (tasks k)
                0%nat (nothing_selected (min_score_adj_of k))) as Hevs.
  unfold lowmem_scan in *.
  destruct (for_each_process_of k _ 0 (tasks k) _) as [st evs|ret evs];
    cbn [step_events] in Hevs.
  - destruct (selected st) as [[i p]|]; cbv zeta; cbn [retval final effects];
      (split; [reflexivity|]); (split; [reflexivity|]); unfold shrink_banner;
      repeat first [ rewrite sent_signals_app | rewrite sent_signals_print
                   | rewrite (sent_signals_scan _ _ _ Hevs)
                   | rewrite sent_signals_cons ];
      reflexivity.
  - cbn [retval final effects]. split; [reflexivity|]. split; [reflexivity|].
    unfold shrink_banner.
    rewrite sent_signals_app, sent_signals_print, sent_signals_cons.
    apply (sent_signals_scan _ _ _ Hevs).
Qed.

(** X7.  Who is killed.  Take a scanning call that gets to the scan, on a
    process list without a task marked as dying before the deadline.  If
    the process at position [i] passes the filters, no candidate has a
    higher score and none of the same score comes after it, then the one
    signal of the call goes to its task, and the call returns the sum of
    the four lists minus the size of that task (as C [int]s). *)
Theorem last_best_candidate_is_killed (k : kernel) (nr gfp : Z) (i : nat)
    (tsk : process) (p : task_struct) :
  0 < nr →
  min_score_adj_of k ≠ short_circuit_value OOM_ADJUST_MAX →
  (∀ tsk' q, tsk' ∈ tasks k → is_kthread PF_KTHREAD tsk' = false →
             find_lock_task_mm tsk' = Some q → ¬ death_pending k q) →
  tasks k !! i = Some tsk →
  candidate_of (min_score_adj_of k) tsk p →
  (∀ j tsk' q, tasks k !! j = Some tsk' →
               candidate_of (min_score_adj_of k) tsk' q →
               task_score q ≤ task_score p
               ∧ (task_score q = task_score p → (j ≤ i)%nat)) →
  sent_signals (effects (shrink_of k nr gfp)) = [(i, pid p)]
  ∧ retval (shrink_of k nr gfp) = to_int (lowmem_rem k - task_size p).
Proof.
  intros Hnr Hne Hquiet Hi Hcand Hbest.
  destruct (for_each_process_completes PF_KTHREAD k (min_score_adj_of k)
              (tasks k) 0%nat (nothing_selected (min_score_adj_of k)) Hquiet)
    as (st & evs & Hscan).
  pose proof (lowmem_scan_best_of _ _ k st evs Hscan) as Hinv.
  pose proof (shrink_scan_summary k nr gfp Hne Hnr) as Hsum.
  unfold lowmem_scan in Hsum. rewrite Hscan in Hsum.
  unfold best_of in Hinv. destruct (selected st) as [[i0 p0]|].
  - destruct Hinv as ((tsk0 & Hi0 & Hcand0) & _ & Hsize & Hbest0).
    destruct (Hbest _ _ _ Hi0 Hcand0) as [Hle Hlast].
    destruct (Hbest0 _ _ _ Hi Hcand) as [Hle0 Hlast0].
    assert (Hscore : task_score p0 = task_score p) by lia.
    assert (i0 = i) as -> by (specialize (Hlast Hscore);
                              specialize (Hlast0 (eq_sym Hscore)); lia).
    assert (tsk0 = tsk) as -> by congruence.
    assert (p0 = p) as ->.
    { destruct Hcand as (_ & Hp & _), Hcand0 as (_ & Hp0 & _). congruence. }
    destruct Hsum as (Hret & _ & Hsent). rewrite Hret, Hsent, Hsize.
    split; reflexivity.
  - destruct (Hinv _ _ _ Hi Hcand).
Qed.

(** X8.  No kill without memory pressure.  Let [OOM_SCORE_ADJ_MAX + 1] be a
    [short] and let no task have a score above [OOM_SCORE_ADJ_MAX].  When
    every entry of the table in force is at or below the free and file
    pages the loop sees, a call sends no signal and leaves the kernel as it
    was, for every [nr_to_scan] and whatever the comparison of line 109
    makes of it. *)
Theorem no_kill_without_pressure (k : kernel) (nr gfp : Z) :
  to_short (OOM_SCORE_ADJ_MAX + 1) = OOM_SCORE_ADJ_MAX + 1 →
  (∀ i : nat, Z.of_nat i < effective_size k → minfree_at k i ≤ pages_seen k) →
  (∀ tsk p, tsk ∈ tasks k → find_lock_task_mm tsk = Some p →
            task_score p ≤ OOM_SCORE_ADJ_MAX) →
  sent_signals (effects (shrink_of k nr gfp)) = []
  ∧ final (shrink_of k nr gfp) = k.
Proof.
  intros Hshort Hnone Hscores.
  assert (Hmin : min_score_adj_of k = OOM_SCORE_ADJ_MAX + 1).
  { unfold lowmem_min_score_adj. rewrite array_size_min, Hshort.
    apply threshold_loop_fallthrough. intros j Hj. apply Hnone. lia. }
  destruct (shrink_outcome k nr gfp)
    as [(Hfinal & Hsent & _)
       |(st & evs & i & p & _ & _ & Hscan & Hsel & _)]; [split; assumption|].
  pose proof (lowmem_scan_best_of _ _ k st evs Hscan) as Hinv.
  unfold best_of in Hinv. rewrite Hsel in Hinv.
  destruct Hinv as ((tsk & Hi & _ & Hp & Hscore & _) & _).
  pose proof (Hscores tsk p (list_elem_of_lookup_2 _ _ _ Hi) Hp). lia.
Qed.

(** ** Processes that do not count *)

Lemma scan_body_shift (k : kernel) (m : Z) (a a' : nat) (tsk : process)
    (st st' : selection) :
  sel_same_task st st' →
  step_same_task (scan_body_of k m a tsk st) (scan_body_of k m a' tsk st').
Proof.
  intros (Hsel & Hsize & Hadj). rewrite !scan_body_cases.
  destruct (is_kthread PF_KTHREAD tsk); [repeat split; assumption|].
  destruct (find_lock_task_mm tsk) as [p|]; [|repeat split; assumption].
  destruct (tif_memdie p && _); [reflexivity|].
  assert (His : is_selected st = is_selected st').
  { unfold is_selected. destruct (selected st), (selected st'); cbn in Hsel;
      congruence. }
  rewrite <- His, <- Hadj.
  destruct (_ || _); cbn [step_same_task]; repeat split; assumption.
Qed.

(** The position the loop starts from does not change what it selects. *)
Lemma for_each_process_shift (k : kernel) (m : Z) (ps : list process) :
  ∀ (a a' : nat) (st st' : selection),
    sel_same_task st st' →
    step_same_task (for_each_process_of k m a ps st)
                   (for_each_process_of k m a' ps st').
Proof.
  induction ps as [|tsk ps IH]; intros a a' st st' Hst; cbn [for_each_process];
    [exact Hst|].
  pose proof (scan_body_shift k m a a' tsk st st' Hst) as Hbody.
  destruct (scan_body_of k m a tsk st) as [st1 evs1|ret1 evs1],
           (scan_body_of k m a' tsk st') as [st1' evs1'|ret1' evs1'];
    cbn [step_same_task] in Hbody; try contradiction; [|exact Hbody].
  specialize (IH (S a) (S a') st1 st1' Hbody).
  destruct (for_each_process_of k m (S a) ps st1),
           (for_each_process_of k m (S a') ps st1'); exact IH.
Qed.

Lemma sel_same_task_refl (st : selection) : sel_same_task st st.
Proof. repeat split. Qed.

Lemma for_each_process_passed_over (k : kernel) (m : Z)
    (pre post : list process) (tsk : process) (a : nat) (st : selection) :
  passed_over PF_KTHREAD tsk →
  step_same_task (for_each_process_of k m a (pre ++ tsk :: post) st)
                 (for_each_process_of k m a (pre ++ post) st).
Proof.
  intros Hover. rewrite !for_each_process_app.
  destruct (for_each_process_of k m a pre st) as [st1 evs1|ret evs1];
    [|reflexivity].
  cbn [for_each_process].
  assert (Hbody : scan_body_of k m (a + length pre) tsk st1 = Continue st1 []).
  { rewrite scan_body_cases. destruct Hover as [-> | Hnone]; [reflexivity|].
    rewrite Hnone. destruct (is_kthread PF_KTHREAD tsk); reflexivity. }
  rewrite Hbody.
  pose proof (for_each_process_shift k m post (S (a + length pre))
                (a + length pre)%nat st1 st1 (sel_same_task_refl st1)) as Hrest.
  destruct (for_each_process_of k m (S (a + length pre)) post st1),
           (for_each_process_of k m (a + length pre) post st1); exact Hrest.
Qed.

(** X9.  A kernel thread, or a process none of whose threads has an address
    space, does not count: with such a process put anywhere into the
    process list, a call returns the same value, leaves the same deadline
    and sends its signal, if any, to the same pid. *)
Theorem passed_over_process_does_not_count (k : kernel) (nr gfp : Z)
    (pre post : list process) (tsk : process) :
  Z.land (flags tsk) PF_KTHREAD ≠ 0 ∨ find_lock_task_mm tsk = None →
  retval (shrink_of (with_tasks k (pre ++ tsk :: post)) nr gfp)
  = retval (shrink_of (with_tasks k (pre ++ post)) nr gfp)
  ∧ lowmem_deathpending_timeout
      (final (shrink_of (with_tasks k (pre ++ tsk :: post)) nr gfp))
    = lowmem_deathpending_timeout
        (final (shrink_of (with_tasks k (pre ++ post)) nr gfp))
  ∧ snd <$> sent_signals
              (effects (shrink_of (with_tasks k (pre ++ tsk :: post)) nr gfp))
    = snd <$> sent_signals
                (effects (shrink_of (with_tasks k (pre ++ post)) nr gfp)).
Proof.
  intros Hover.
  assert (Hover' : passed_over PF_KTHREAD tsk).
  { destruct Hover as [Hfl|Hnone]; [left|right; exact Hnone].
    unfold is_kthread. rewrite (proj2 (Z.eqb_neq _ _) Hfl). reflexivity. }
  set (k1 := with_tasks k (pre ++ tsk :: post)).
  set (k2 := with_tasks k (pre ++ post)).
  assert (Hmin1 : min_score_adj_of k1 = min_score_adj_of k)
    by apply min_score_adj_with_tasks.
  assert (Hmin2 : min_score_adj_of k2 = min_score_adj_of k)
    by apply min_score_adj_with_tasks.
  destruct (decide (min_score_adj_of k = short_circuit_value OOM_ADJUST_MAX))
    as [Heq|Hne].
  { rewrite !shrink_short_circuit by congruence. repeat split. }
  destruct (Z.le_gt_cases nr 0) as [Hnr|Hnr].
  { rewrite !shrink_query by congruence. repeat split. }
  pose proof (shrink_scan_summary k1 nr gfp ltac:(congruence) Hnr) as Hsum1.
  pose proof (shrink_scan_summary k2 nr gfp ltac:(congruence) Hnr) as Hsum2.
  pose proof (for_each_process_passed_over k (min_score_adj_of k) pre post tsk
                0%nat (nothing_selected (min_score_adj_of k)) Hover') as Hrel.
  unfold lowmem_scan in Hsum1, Hsum2. rewrite Hmin1 in Hsum1. rewrite Hmin2 in Hsum2.
  change (tasks k1) with (pre ++ tsk :: post) in Hsum1.
  change (tasks k2) with (pre ++ post) in Hsum2.
  rewrite (for_each_process_ext PF_KTHREAD k k1) in Hsum1 by reflexivity.
  rewrite (for_each_process_ext PF_KTHREAD k k2) in Hsum2 by reflexivity.
  destruct (for_each_process_of k _ 0 (pre ++ tsk :: post) _) as [st1 evs1|ret1 evs1],
           (for_each_process_of k _ 0 (pre ++ post) _) as [st2 evs2|ret2 evs2];
    cbn [step_same_task] in Hrel; try contradiction.
  - destruct Hrel as (Hsel & Hsize & _).
    destruct (selected st1) as [[i1 p1]|], (selected st2) as [[i2 p2]|];
      cbn in Hsel; try discriminate.
    + injection Hsel as ->.
      destruct Hsum1 as (-> & -> & ->), Hsum2 as (-> & -> & ->).
      rewrite Hsize. repeat split.
    + destruct Hsum1 as (-> & -> & ->), Hsum2 as (-> & -> & ->). repeat split.
  - destruct Hsum1 as (-> & -> & ->), Hsum2 as (-> & -> & ->). subst ret2.
    repeat split.
Qed.

(** ** The arguments *)

Lemma calls_made_app (evs1 evs2 : list event) :
  calls_made (evs1 ++ evs2) = calls_made evs1 ++ calls_made evs2.
Proof. apply omap_app. Qed.

Lemma calls_made_cons (e : event) (evs : list event) :
  calls_made (e :: evs)
  = match e with
    | Printk _ => calls_made evs
    | _ => e :: calls_made evs
    end.
Proof. destruct e; reflexivity. Qed.

Lemma calls_made_print (k : kernel) (level : Z) (m : message) :
  calls_made (lowmem_print k level m) = [].
Proof. unfold lowmem_print. destruct (level <=? lowmem_debug_level k); reflexivity. Qed.

(** X10.  Of [nr_to_scan] only the sign counts, and [gfp_mask] not at all:
    two calls on the same kernel whose [nr_to_scan] are both above zero, or
    both not, return the same value, leave the same kernel and make the
    same calls into the kernel in the same order; they differ at most in
    what they print. *)
Theorem only_the_sign_of_nr_to_scan_counts (k : kernel) (nr gfp nr' gfp' : Z) :
  (0 < nr ↔ 0 < nr') →
  retval (shrink_of k nr gfp) = retval (shrink_of k nr' gfp')
  ∧ final (shrink_of k nr gfp) = final (shrink_of k nr' gfp')
  ∧ calls_made (effects (shrink_of k nr gfp))
    = calls_made (effects (shrink_of k nr' gfp')).
Proof.
  intros Hsign.
  destruct (decide (min_score_adj_of k = short_circuit_value OOM_ADJUST_MAX))
    as [Heq|Hne].
  { rewrite !shrink_short_circuit by exact Heq. repeat split. }
  destruct (Z.le_gt_cases nr 0) as [Hnr|Hnr].
  { assert (Hnr' : nr' ≤ 0) by lia.
    rewrite !shrink_query by assumption. cbn [retval final effects].
    rewrite !calls_made_print. repeat split. }
  assert (Hnr' : 0 < nr') by (apply Hsign; exact Hnr).
  rewrite !shrink_scan by assumption. unfold shrink_banner.
  destruct (scan_of k) as [st evs|ret evs].
  - destruct (selected st) as [[i p]|]; cbv zeta; cbn [retval final effects];
      (split; [reflexivity|]); (split; [reflexivity|]);
      repeat first [ rewrite calls_made_app | rewrite calls_made_print
                   | rewrite calls_made_cons ];
      reflexivity.
  - cbn [retval final effects]. split; [reflexivity|]. split; [reflexivity|].
    rewrite !calls_made_app, !calls_made_print. reflexivity.
Qed.

(** ** What is printed *)

Lemma lowmem_print_level (k : kernel) (level : Z) (m m' : message) :
  Printk m' ∈ lowmem_print k level m → m' = m ∧ level ≤ lowmem_debug_level k.
Proof.
  unfold lowmem_print. destruct (Z.leb_spec level (lowmem_debug_level k)) as [Hle|_];
    intros Hin.
  - apply list_elem_of_singleton in Hin. injection Hin as ->. auto.
  - apply elem_of_nil in Hin. destruct Hin.
Qed.

Lemma for_each_process_prints (k : kernel) (m : Z) (ps : list process)
    (msg : message) :
  ∀ (a : nat) (st : selection),
    Printk msg ∈ step_events (for_each_process_of k m a ps st) →
    message_level msg ≤ lowmem_debug_level k.
Proof.
  induction ps as [|tsk ps IH]; intros a st; cbn [for_each_process step_events].
  { intros Hin. apply elem_of_nil in Hin. destruct Hin. }
  assert (Hbody : Printk msg ∈ step_events (scan_body_of k m a tsk st) →
                  message_level msg ≤ lowmem_debug_level k).
  { rewrite scan_body_cases.
    destruct (is_kthread PF_KTHREAD tsk);
      [intros Hin; apply elem_of_nil in Hin; destruct Hin|].
    destruct (find_lock_task_mm tsk) as [p|];
      [|intros Hin; apply elem_of_nil in Hin; destruct Hin].
    destruct (tif_memdie p && _); cbn [step_events].
    { intros Hin. repeat (apply elem_of_cons in Hin as [Hin|Hin]; [discriminate|]).
      apply elem_of_nil in Hin. destruct Hin. }
    destruct (_ || _); cbn [step_events].
    { intros Hin. repeat (apply elem_of_cons in Hin as [Hin|Hin]; [discriminate|]).
      apply elem_of_nil in Hin. destruct Hin. }
    intros Hin. apply elem_of_app in Hin as [Hin|Hin].
    - repeat (apply elem_of_cons in Hin as [Hin|Hin]; [discriminate|]).
      apply elem_of_nil in Hin. destruct Hin.
    - apply lowmem_print_level in Hin as [-> Hle]. exact Hle. }
  destruct (scan_body_of k m a tsk st) as [st1 evs1|ret evs1];
    cbn [step_events] in *; [|exact Hbody].
  specialize (IH (S a) st1).
  destruct (for_each_process_of k m (S a) ps st1) as [st2 evs2|ret evs2];
    cbn [step_events] in *; intros Hin; apply elem_of_app in Hin as [Hin|Hin];
    auto.
Qed.

(** X11.  A message is printed only at its debug level: the line on the
    signal from level 1, the line on a selected task from level 2, the line
    on the call from level 3 and the line on the return value from level 4
    on.  With [lowmem_debug_level] at 0 a call prints nothing. *)
Theorem messages_respect_the_debug_level (k : kernel) (nr gfp : Z)
    (msg : message) :
  Printk msg ∈ effects (shrink_of k nr gfp) →
  message_level msg ≤ lowmem_debug_level k.
Proof.
  destruct (decide (min_score_adj_of k = short_circuit_value OOM_ADJUST_MAX))
    as [Heq|Hne].
  { rewrite shrink_short_circuit by exact Heq. intros Hin.
    apply elem_of_nil in Hin. destruct Hin. }
  destruct (Z.le_gt_cases nr 0) as [Hnr|Hnr].
  { rewrite shrink_query by assumption. intros Hin.
    apply lowmem_print_level in Hin as [-> Hle]. cbn. lia. }
  rewrite shrink_scan by assumption.
  pose proof (for_each_process_prints k (min_score_adj_of k) (tasks k) msg 0%nat
                (nothing_selected (min_score_adj_of k))) as Hscan.
  unfold lowmem_scan, shrink_banner.
  destruct (for_each_process_of k _ 0 (tasks k) _) as [st evs|ret evs];
    cbn [step_events] in Hscan.
  - destruct (selected st) as [[i p]|]; cbv zeta; cbn [effects]; intros Hin;
      repeat first
        [ apply elem_of_app in Hin as [Hin|Hin]
        | apply elem_of_cons in Hin as [Hin|Hin]
        | apply elem_of_nil in Hin; destruct Hin ];
      try discriminate; try (apply Hscan; exact Hin);
      apply lowmem_print_level in Hin as [-> Hle]; cbn; lia.
  - cbn [effects]. intros Hin.
    apply elem_of_app in Hin as [Hin|Hin];
      [apply lowmem_print_level in Hin as [-> Hle]; exact Hle|].
    apply elem_of_cons in Hin as [Hin|Hin]; [discriminate|]. apply Hscan, Hin.
Qed.

(** ** The deadline over many calls *)

(** X12.  With [HZ] not below zero, the deadline never lies more than [HZ]
    ticks ahead of the clock: in a world where the clock does not go back
    and only this function writes the deadline, the bound holds after any
    number of calls if it held before them.  So no task marked as dying can
    stop a scan that comes more than [HZ] ticks later. *)
Theorem deadline_stays_within_HZ (k k' : kernel) :
  0 ≤ HZ →
  deadline_bounded HZ k →
  reaches OOM_SCORE_ADJ_MAX OOM_ADJUST_MAX PF_KTHREAD HZ k k' →
  deadline_bounded HZ k'
  ∧ ∀ (now : Z) (p : task_struct),
      jiffies k' + HZ < now → ¬ death_pending (at_jiffies k' now) p.
Proof.
  intros HHZ Hbound Hrun.
  assert (Hend : deadline_bounded HZ k').
  { induction Hrun as [k|k k1 k' Hclock Hsame _ IH|k k' nr gfp _ IH].
    - exact Hbound.
    - apply IH. unfold deadline_bounded in *. lia.
    - apply IH.
      destruct (shrink_outcome k nr gfp)
        as [(-> & _)|(st & evs & i & p & _ & _ & _ & _ & -> & _)].
      + exact Hbound.
      + unfold deadline_bounded. cbn [with_kill lowmem_deathpending_timeout jiffies].
        apply ulong_add_le. }
  split; [exact Hend|].
  intros now p Hlate [_ Hbefore]. unfold deadline_bounded in Hend.
  cbn [at_jiffies jiffies lowmem_deathpending_timeout] in Hbefore. lia.
Qed.

End MoreHeaderFacts.

(** ** The further properties at work *)

(** The kill of the larger of two processes: one signal, the flag and the
    compaction with it. *)
Lemma at_most_one_kill_per_call_witness :
  SetTskThreadFlagMemdie 1
  ∈ effects (Linux.lowmem_shrink (under_pressure [small_app; large_app]) 1 0).
Proof.
  refine (proj1 (proj2 (proj2 (at_most_one_kill_per_call Linux.OOM_SCORE_ADJ_MAX
                                 Linux.OOM_ADJUST_MAX Linux.PF_KTHREAD Linux.HZ
                                 (under_pressure [small_app; large_app]) 1 0))
                   1%nat 102 _)).
  vm_compute. apply list_elem_of_here.
Defined.

(** From 3500 pages down to 2500: the least score goes from 1 to 0. *)
Lemma less_memory_never_raises_the_score_witness :
  Linux.lowmem_min_score_adj
    (with_page_state (under_pressure []) (page_counts 500 1000 1000 3000 2000))
  ≤ Linux.lowmem_min_score_adj (under_pressure []).
Proof.
  apply (less_memory_never_raises_the_score Linux.OOM_SCORE_ADJ_MAX
           (under_pressure []) (page_counts 500 1000 1000 3000 2000)).
  - intros i j Hij Hj. change (effective_size (under_pressure [])) with 4 in Hj.
    assert (i = 0 ∨ i = 1 ∨ i = 2 ∨ i = 3)%nat as [->|[->|[->| ->]]] by lia;
      (assert (j = 0 ∨ j = 1 ∨ j = 2 ∨ j = 3)%nat as [->|[->|[->| ->]]] by lia);
      first [lia | vm_compute; discriminate].
  - intros i Hi. change (effective_size (under_pressure [])) with 4 in Hi.
    assert (i = 0 ∨ i = 1 ∨ i = 2 ∨ i = 3)%nat as [->|[->|[->| ->]]] by lia;
      vm_compute; discriminate.
  - vm_compute. discriminate.
Defined.

(** Other values in the fifth and sixth slot change nothing. *)
Lemma slots_past_the_sizes_are_ignored_witness :
  Linux.lowmem_min_score_adj stale_slots
  = Linux.lowmem_min_score_adj (under_pressure []).
Proof.
  refine (proj1 (slots_past_the_sizes_are_ignored Linux.OOM_SCORE_ADJ_MAX
                   (under_pressure []) stale_slots eq_refl eq_refl eq_refl _)).
  intros i Hi. change (effective_size (under_pressure [])) with 4 in Hi.
  assert (i = 0 ∨ i = 1 ∨ i = 2 ∨ i = 3)%nat as [->|[->|[->| ->]]] by lia;
    split; reflexivity.
Defined.

(** 2000 pages with the table of the comment: the least score is 8. *)
Lemma example_of_the_header_comment_witness :
  Linux.lowmem_min_score_adj (header_example 2000) = 8.
Proof.
  refine (proj1 (proj2 (example_of_the_header_comment Linux.OOM_SCORE_ADJ_MAX
                          (header_example 2000) eq_refl eq_refl eq_refl eq_refl
                          eq_refl eq_refl)) _).
  vm_compute. split; [discriminate|reflexivity].
Defined.

(** The process of score 12 between two of score 8 is the one killed. *)
Lemma last_best_candidate_is_killed_witness :
  sent_signals
    (effects (Linux.lowmem_shrink
                (under_pressure [small_app; user_process 104 "game" false 12 300;
                                 large_app]) 1 0))
  = [(1%nat, 104)].
Proof.
  refine (proj1 (last_best_candidate_is_killed Linux.OOM_SCORE_ADJ_MAX
                   Linux.OOM_ADJUST_MAX Linux.PF_KTHREAD Linux.HZ
                   (under_pressure [small_app; user_process 104 "game" false 12 300;
                                    large_app]) 1 0 1%nat
                   (user_process 104 "game" false 12 300)
                   (mk_task 104 "game" false 12 300) _ _ _ eq_refl _ _)).
  - lia.
  - vm_compute. discriminate.
  - intros tsk q Hin _ Hq [Hdie _].
    repeat (apply elem_of_cons in Hin as [->|Hin];
            [cbn in Hq; injection Hq as <-; discriminate|]).
    apply elem_of_nil in Hin. destruct Hin.
  - repeat split; vm_compute; congruence.
  - intros j tsk q Hj (_ & Hq & _).
    destruct j as [|[|[|j]]]; cbn in Hj; try discriminate;
      injection Hj as <-; cbn in Hq; injection Hq as <-;
      (split; [vm_compute; discriminate|]); intros Hscore;
      [vm_compute in Hscore; discriminate|lia|vm_compute in Hscore; discriminate].
Defined.

(** 22000 pages and the default table: nothing is killed. *)
Lemma no_kill_without_pressure_witness :
  sent_signals (effects (Linux.lowmem_shrink (relaxed [small_app; large_app]) 1 0))
  = [].
Proof.
  refine (proj1 (no_kill_without_pressure Linux.OOM_SCORE_ADJ_MAX
                   Linux.OOM_ADJUST_MAX Linux.PF_KTHREAD Linux.HZ
                   (relaxed [small_app; large_app]) 1 0 eq_refl _ _)).
  - intros i Hi. change (effective_size (relaxed [small_app; large_app])) with 4 in Hi.
    assert (i = 0 ∨ i = 1 ∨ i = 2 ∨ i = 3)%nat as [->|[->|[->| ->]]] by lia;
      vm_compute; discriminate.
  - intros tsk p Hin Hp.
    repeat (apply elem_of_cons in Hin as [->|Hin];
            [cbn in Hp; injection Hp as <-; vm_compute; discriminate|]).
    apply elem_of_nil in Hin. destruct Hin.
Defined.

(** A kernel thread between the two processes changes nothing. *)
Lemma passed_over_process_does_not_count_witness :
  retval (Linux.lowmem_shrink
            (with_tasks (under_pressure []) ([small_app] ++ kthreadd :: [large_app]))
            1 0)
  = retval (Linux.lowmem_shrink
              (with_tasks (under_pressure []) ([small_app] ++ [large_app])) 1 0).
Proof.
  refine (proj1 (passed_over_process_does_not_count Linux.OOM_SCORE_ADJ_MAX
                   Linux.OOM_ADJUST_MAX Linux.PF_KTHREAD Linux.HZ
                   (under_pressure []) 1 0 [small_app] [large_app] kthreadd _)).
  left. vm_compute. discriminate.
Defined.

(** To scan 1 object or 128, with any allocation mask, is the same. *)
Lemma only_the_sign_of_nr_to_scan_counts_witness :
  retval (Linux.lowmem_shrink (under_pressure [small_app; large_app]) 1 0)
  = retval (Linux.lowmem_shrink (under_pressure [small_app; large_app]) 128 208).
Proof.
  refine (proj1 (only_the_sign_of_nr_to_scan_counts Linux.OOM_SCORE_ADJ_MAX
                   Linux.OOM_ADJUST_MAX Linux.PF_KTHREAD Linux.HZ
                   (under_pressure [small_app; large_app]) 1 0 128 208 _)).
  split; intros _; lia.
Defined.

(** The line on the signal is printed at the debug level of 2. *)
Lemma messages_respect_the_debug_level_witness :
  message_level (MsgSendSigkill 102 "large" 8 500)
  ≤ lowmem_debug_level (under_pressure [large_app]).
Proof.
  apply (messages_respect_the_debug_level Linux.OOM_SCORE_ADJ_MAX
           Linux.OOM_ADJUST_MAX Linux.PF_KTHREAD Linux.HZ
           (under_pressure [large_app]) 1 0).
  vm_compute. find_event.
Defined.

(** After a kill at time 5 the deadline of 105 is within [HZ] of the clock. *)
Lemma deadline_stays_within_HZ_witness :
  deadline_bounded Linux.HZ
    (final (Linux.lowmem_shrink (under_pressure [large_app]) 1 0)).
Proof.
  refine (proj1 (deadline_stays_within_HZ Linux.OOM_SCORE_ADJ_MAX
                   Linux.OOM_ADJUST_MAX Linux.PF_KTHREAD Linux.HZ
                   (under_pressure [large_app]) _ _ _ _)).
  - vm_compute. discriminate.
  - vm_compute. discriminate.
  - apply reaches_call with (nr := 1) (gfp := 0). apply reaches_here.
Defined.

(** The query on a kernel under pressure leaves it as it is. *)
Lemma query_mode_has_no_effect_witness :
  final (Linux.lowmem_shrink (under_pressure [small_app; large_app]) 0 0)
  = under_pressure [small_app; large_app].
Proof.
  refine (proj1 (query_mode_has_no_effect Linux.OOM_SCORE_ADJ_MAX
                   Linux.OOM_ADJUST_MAX Linux.PF_KTHREAD Linux.HZ
                   (under_pressure [small_app; large_app]) 0 0 _)).
  lia.
Defined.

(** The query under pressure returns the 7000 pages of the four lists. *)
Lemma query_mode_value_witness :
  retval (Linux.lowmem_shrink (under_pressure [small_app; large_app]) 0 0) = 7000.
Proof.
  refine (query_mode_value Linux.OOM_SCORE_ADJ_MAX
            Linux.OOM_ADJUST_MAX Linux.PF_KTHREAD Linux.HZ
            (under_pressure [small_app; large_app]) 0 0 _ _).
  - lia.
  - vm_compute. split; discriminate.
Defined.

(** Killed at time 5, the process makes the call at time 50 return 0. *)
Lemma kill_then_zero_until_the_deadline_witness :
  retval (Linux.lowmem_shrink
            (at_jiffies (final (Linux.lowmem_shrink (under_pressure [large_app]) 1 0))
               50) 1 0) = 0.
Proof.
  refine (kill_then_zero_until_the_deadline Linux.OOM_SCORE_ADJ_MAX
            Linux.OOM_ADJUST_MAX Linux.PF_KTHREAD Linux.HZ
            (under_pressure [large_app]) 1 0 0%nat 102 50 1 0 _ _ _).
  - vm_compute. find_event.
  - vm_compute. discriminate.
  - lia.
Defined.

(** Eleven ticks before the clock wraps, the deadline of a kill is 89; a
    scanning call at 50 still returns 0, one at 1000 kills again. *)
Example deadline_wraps_with_the_clock :
  lowmem_deathpending_timeout
    (final (Linux.lowmem_shrink
              (kernel_with default_adj 1500 4294967285 0 [large_app]) 1 0))
  = 89
  ∧ retval (Linux.lowmem_shrink
              (at_jiffies
                 (final (Linux.lowmem_shrink
                           (kernel_with default_adj 1500 4294967285 0 [large_app])
                           1 0)) 50) 1 0) = 0
  ∧ retval (Linux.lowmem_shrink
              (at_jiffies
                 (final (Linux.lowmem_shrink
                           (kernel_with default_adj 1500 4294967285 0 [large_app])
                           1 0)) 1000) 1 0) = 6500.
Proof. repeat split; vm_compute; reflexivity. Qed.
